(** * flask-rebar: the OpenAPI v3 generator

    A shallow embedding of
    [flask_rebar/swagger_generation/swagger_generator_v3.py]
    ([SwaggerV3Generator]) and the properties of the document it builds.

    Python dictionaries keep insertion order and the generator's last step
    sorts them, so a dictionary is an association list here: order is part
    of the value.  Exceptions are an explicit error result. *)

From Stdlib Require Import List String Ascii Bool ZArith.
From Stdlib Require Import DecimalString DecimalZ.
Import ListNotations.
Local Open Scope string_scope.
Local Open Scope list_scope.

Set Implicit Arguments.

(** ** Values of the generated document *)

(** The document is built of Python [dict], [list], [str], [bool], [int]
    and [None]. *)
Unset Elimination Schemes.
Inductive json : Type :=
| JNull
| JBool (b : bool)
| JNum (z : Z)
| JStr (s : string)
| JList (items : list json)
| JObj (members : list (string * json)).
Set Elimination Schemes.

(** A Python [dict] with [str] keys, in insertion order. *)
Definition dict := list (string * json).

(** Induction over a document, with the hypotheses for the values nested
    in a list or in a dictionary. *)
Fixpoint json_nested_ind (P : json -> Prop)
    (Hnull : P JNull) (Hbool : forall b, P (JBool b))
    (Hnum : forall z, P (JNum z)) (Hstr : forall s, P (JStr s))
    (Hlist : forall l, Forall P l -> P (JList l))
    (Hobj : forall d, Forall (fun kv => P (snd kv)) d -> P (JObj d))
    (j : json) {struct j} : P j :=
  let rec := json_nested_ind Hnull Hbool Hnum Hstr Hlist Hobj in
  match j with
  | JNull => Hnull
  | JBool b => Hbool b
  | JNum z => Hnum z
  | JStr s => Hstr s
  | JList l =>
      Hlist l ((fix go (l : list json) : Forall P l :=
                  match l with
                  | [] => Forall_nil P
                  | x :: r => Forall_cons x (rec x) (go r)
                  end) l)
  | JObj d =>
      Hobj d ((fix go (d : list (string * json))
                 : Forall (fun kv => P (snd kv)) d :=
                 match d with
                 | [] => Forall_nil _
                 | kv :: r =>
                     Forall_cons (P := fun kv => P (snd kv)) kv
                       (rec (snd kv)) (go r)
                 end) d)
  end.

(** ** Dictionary operations *)

Section Dict.
Variable V : Type.

(** [d.get(k)] / [d[k]]: the binding of [k], if any. *)
Fixpoint dict_get (k : string) (d : list (string * V)) : option V :=
  match d with
  | [] => None
  | (k', v) :: r => if String.eqb k k' then Some v else dict_get k r
  end.

(** [k in d]. *)
Definition dict_mem (k : string) (d : list (string * V)) : bool :=
  match dict_get k d with Some _ => true | None => false end.

(** [d[k] = v]: an existing key keeps its position, a new key goes last. *)
Fixpoint dict_set (k : string) (v : V) (d : list (string * V))
  : list (string * V) :=
  match d with
  | [] => [(k, v)]
  | (k', v') :: r =>
      if String.eqb k k' then (k, v) :: r else (k', v') :: dict_set k v r
  end.

(** The dictionary left by [d.pop(k, None)]. *)
Definition dict_remove (k : string) (d : list (string * V))
  : list (string * V) :=
  filter (fun kv => negb (String.eqb k (fst kv))) d.

(** [d.update(other)]. *)
Definition dict_update (d other : list (string * V)) : list (string * V) :=
  fold_left (fun acc kv => dict_set (fst kv) (snd kv) acc) other d.
End Dict.

(** ** The words of the target format *)

(** Modelled from the spec: the module [swagger_words] (imported as [sw])
    is not part of the sources at hand.  Its constants are the keywords of
    the target format that the generator's field names denote. *)
Module sw.
Definition components := "components".
Definition content := "content".
Definition default := "default".
Definition description := "description".
Definition explode := "explode".
Definition header := "header".
Definition in_ := "in".
Definition info := "info".
Definition name := "name".
Definition openapi := "openapi".
Definition operation_id := "operationId".
Definition parameters := "parameters".
Definition path := "path".
Definition paths := "paths".
Definition query := "query".
Definition request_body := "requestBody".
Definition required := "required".
Definition responses := "responses".
Definition schema := "schema".
Definition schemas := "schemas".
Definition security := "security".
Definition security_schemes := "securitySchemes".
Definition servers := "servers".
Definition simple := "simple".
Definition style := "style".
Definition summary := "summary".
Definition tags := "tags".
Definition type_ := "type".
End sw.

(** ** Exceptions *)

(** The failures of the spec's taxonomy: a parameter mismatch between two
    variants of a path, a converter tag missing from the lookup table (the
    [KeyError] of the table lookup), and a naming collision between
    schemas; and Python's [TypeError], raised when a value of the wrong
    kind is used as a list of parameters. *)
Inductive error : Type :=
| ParameterMismatch
| UnknownConverter (tag : string)
| NamingCollision
| TypeError.

Inductive result (A : Type) : Type :=
| Ok (a : A)
| Raise (e : error).
Arguments Ok {A} a.
Arguments Raise {A} e.

Definition bind {A B} (m : result A) (k : A -> result B) : result B :=
  match m with
  | Ok a => k a
  | Raise e => Raise e
  end.

Notation "x <- m ;; k" := (bind m (fun x => k))
  (at level 61, m at next level, right associativity).

(** A [for] loop whose body may raise: the state is threaded from left to
    right and the first exception ends the loop. *)
Fixpoint for_each {A S} (body : S -> A -> result S) (l : list A) (s : S)
  : result S :=
  match l with
  | [] => Ok s
  | x :: r => s' <- body s x ;; for_each body r s'
  end.

(** ** Python built-ins the generator uses *)

(** [str(status_code)] for an [int]. *)
Definition str (z : Z) : string := NilEmpty.string_of_int (Z.to_int z).

(** [c.lower()] on an ASCII letter. *)
Definition lower_ascii (c : ascii) : ascii :=
  let n := nat_of_ascii c in
  if (65 <=? n)%nat && (n <=? 90)%nat then ascii_of_nat (n + 32) else c.

(** [method.lower()]; methods are ASCII. *)
Fixpoint lower (s : string) : string :=
  match s with
  | EmptyString => EmptyString
  | String c r => String (lower_ascii c) (lower r)
  end.

(** ** Canonical key order *)

(** Insertion of one item into a dictionary sorted by key; an item goes
    after the items whose key is not greater, as a stable sort does. *)
Fixpoint insert_item (kv : string * json) (d : dict) : dict :=
  match d with
  | [] => [kv]
  | kv' :: r =>
      if String.ltb (fst kv) (fst kv') then kv :: d
      else kv' :: insert_item kv r
  end.

(** [sorted(obj.items())] for a dictionary. *)
Definition sorted_items (d : dict) : dict :=
  fold_left (fun acc kv => insert_item kv acc) d [].

(** Modelled from the spec: [recursively_convert_dict_to_ordered_dict] of
    [generator_utils] is not part of the sources at hand.  The spec has it
    "recursively produce a canonical key-ordering of the whole document
    (object keys sorted lexicographically at every level)". *)
Fixpoint recursively_convert_dict_to_ordered_dict (obj : json) : json :=
  match obj with
  | JObj d =>
      JObj (sorted_items
              (map (fun kv =>
                      (fst kv, recursively_convert_dict_to_ordered_dict (snd kv)))
                   d))
  | JList l => JList (map recursively_convert_dict_to_ordered_dict l)
  | _ => obj
  end.

(** A list of keys in lexicographic order. *)
Fixpoint keys_in_order (ks : list string) : bool :=
  match ks with
  | [] => true
  | k :: r =>
      match r with
      | [] => true
      | k' :: _ => String.leb k k' && keys_in_order r
      end
  end.

(** The keys of every object of a document are in lexicographic order, at
    every nesting level. *)
Fixpoint sorted_at_every_level (j : json) : bool :=
  match j with
  | JObj d =>
      keys_in_order (map fst d)
      && forallb (fun kv => sorted_at_every_level (snd kv)) d
  | JList l => forallb sorted_at_every_level l
  | _ => true
  end.

(** ** The registry *)

(** A value that is either given or the sentinel [USE_DEFAULT]. *)
Inductive or_default (A : Type) : Type :=
| USE_DEFAULT
| Explicit (a : A).
Arguments USE_DEFAULT {A}.
Arguments Explicit {A} a.

(** [PathArgument]: the name of a placeholder and its converter tag. *)
Record PathArgument : Type := { name : string; type : string }.

Section Generator.

(** The collaborators' objects: schemas and their fields, authenticators,
    handler functions, tags and servers. *)
Variables Schema Field Authenticator Func Tag Server : Type.

(** [PathDefinition].  An [Optional] schema is an [option]; a schema
    object is truthy.  [response_body_schema] and [authenticators] are
    only iterated and tested for truth, and [None] and the empty
    container are both falsy, so the empty list stands for both. *)
Record PathDefinition : Type := {
  func : Func;
  endpoint : option string;
  response_body_schema : list (Z * option Schema);
  query_string_schema : option Schema;
  request_body_schema : option Schema;
  headers_schema : or_default (option Schema);
  authenticators : list (or_default Authenticator);
  tags : list string;
  summary : option string;
  hidden : bool
}.

(** [HandlerRegistry], as the generator reads it. *)
Record HandlerRegistry : Type := {
  paths : list (string * list (string * PathDefinition));
  default_headers_schema : option Schema;
  default_authenticators : list Authenticator
}.

(** The functions of the repository and of its collaborators that the
    generator calls and that are not part of the sources at hand. *)
Record Collaborators : Type := {
  format_path_for_swagger : string -> string * list PathArgument;
  verify_parameters_are_the_same : json -> json -> result unit;
  get_response_description : Schema -> string;
  get_ref_schema : string -> Schema -> json;
  get_swagger_title : Func -> string;
  func_doc : Func -> option string;
  get_schema_fields : Schema -> list (string * Field);
  field_required : Field -> bool;
  get_security_requirements : Authenticator -> list json;
  get_security_schemes : Authenticator -> dict;
  get_unique_schema_definitions :
    HandlerRegistry -> string -> Schema ->
    (Schema -> dict) -> (Schema -> dict) -> result dict;
  get_unique_authenticators : HandlerRegistry -> list Authenticator;
  tag_as_swagger : Tag -> json;
  server_as_swagger : Server -> json;
  Server_of_url : string -> Server;
  get_open_api_version : json;
  _get_info : json
}.

(** [SwaggerV3Generator]: what [__init__] stores and [generate] reads.
    [flask_converters_to_swagger_types] is the lookup table of the base
    class. *)
Record SwaggerV3Generator : Type := {
  self_tags : option (list Tag);
  servers : option (list Server);
  default_response_schema : Schema;
  include_hidden : bool;
  flask_converters_to_swagger_types : list (string * string);
  _query_string_converter : Field -> dict;
  _headers_converter : Field -> dict;
  _request_body_converter : Schema -> dict;
  _response_converter : Schema -> dict
}.

Variable ext : Collaborators.
Variable self : SwaggerV3Generator.

(** [self._ref_base], set by [__init__]. *)
Definition _ref_base : string := "#/components/schemas".

(** ** [_get_response_definition] *)

Definition _get_response_definition (schema : Schema) : dict :=
  [ (sw.description, JStr (get_response_description ext schema));
    (sw.content,
     JObj [ ("application/json",
             JObj [ (sw.schema, get_ref_schema ext _ref_base schema) ]) ]) ].

(** ** [_convert_schema_to_list_of_parameters] *)

(** [d.pop(k, None)]: the value popped, [None] when [k] is absent, and
    the dictionary left. *)
Definition dict_pop (k : string) (d : dict) : json * dict :=
  (match dict_get k d with Some v => v | None => JNull end,
   dict_remove k d).

(** [if v is not None: d[k] = v]. *)
Definition set_if_not_none (k : string) (v : json) (d : dict) : dict :=
  match v with
  | JNull => d
  | _ => dict_set k v d
  end.

(** The body of the loop: the parameter of one field, for the dictionary
    that the converter returns at this call.  What the three [pop] leave
    in that dictionary for a later call is in [parameter_in_place]. *)
Definition parameter_of_field (converter : Field -> dict) (in_ : string)
    (prop : string) (field : Field) : dict :=
  let jsonschema := converter field in
  let '(explode, jsonschema) := dict_pop sw.explode jsonschema in
  let '(description, jsonschema) := dict_pop sw.description jsonschema in
  let '(style, jsonschema) := dict_pop sw.style jsonschema in
  let parameter :=
    [ (sw.name, JStr prop);
      (sw.in_, JStr in_);
      (sw.schema, JObj jsonschema);
      (sw.required, JBool (field_required ext field)) ] in
  let parameter := set_if_not_none sw.explode explode parameter in
  let parameter := set_if_not_none sw.description description parameter in
  let parameter := set_if_not_none sw.style style parameter in
  parameter.

Definition _convert_schema_to_list_of_parameters (schema : Schema)
    (converter : Field -> dict) (in_ : string) : list json :=
  map (fun pf => JObj (parameter_of_field converter in_ (fst pf) (snd pf)))
      (get_schema_fields ext schema).

(** ** [_get_paths] *)

(** The list comprehension that builds [path_params]; the table lookup
    raises at the first tag it does not hold. *)
Fixpoint path_params_of (path_args : list PathArgument)
  : result (list json) :=
  match path_args with
  | [] => Ok []
  | path_arg :: rest =>
      ty <- match dict_get (type path_arg)
                    (flask_converters_to_swagger_types self) with
            | Some ty => Ok ty
            | None => Raise (UnknownConverter (type path_arg))
            end ;;
      params <- path_params_of rest ;;
      Ok (JObj [ (sw.name, JStr (name path_arg));
                 (sw.required, JBool true);
                 (sw.in_, JStr sw.path);
                 (sw.style, JStr sw.simple);
                 (sw.schema, JObj [ (sw.type_, JStr ty) ]) ]
          :: params)
  end.

(** The name and the type a parameter object declares. *)
Definition parameter_name (p : json) : option string :=
  match p with
  | JObj d =>
      match dict_get sw.name d with Some (JStr n) => Some n | _ => None end
  | _ => None
  end.

Definition parameter_type (p : json) : option string :=
  match p with
  | JObj d =>
      match dict_get sw.schema d with
      | Some (JObj s) =>
          match dict_get sw.type_ s with
          | Some (JStr t) => Some t
          | _ => None
          end
      | _ => None
      end
  | _ => None
  end.

Definition same_type (s t : option string) : bool :=
  match s, t with
  | Some a, Some b => String.eqb a b
  | None, None => true
  | _, _ => false
  end.

(** Modelled from the spec: [verify_parameters_are_the_same] of
    [generator_utils] is not part of the sources at hand; it is one of the
    collaborators.  What a theorem assumes of it, where it says so.  As
    its name has it, it returns only when the parameters stored for the
    spec path are the same as those of the path at hand: every stored
    parameter is then found again, with its name and its type.  A stored
    value that is a dictionary, not a list of parameters, makes it fail.
    And on parameters that have names it raises nothing but the error of
    the spec, "if the two occurrences declare different types for the same
    named parameter, this is a fatal configuration error (signal:
    parameter-mismatch failure)". *)
Definition verify_contract (verify : json -> json -> result unit) : Prop :=
  (forall stored path_params p,
      verify (JList stored) (JList path_params) = Ok tt ->
      In p stored ->
      exists q,
        In q path_params
        /\ parameter_name q = parameter_name p
        /\ parameter_type q = parameter_type p)
  /\ (forall d path_params,
        path_params <> [] ->
        verify (JObj d) (JList path_params) <> Ok tt)
  /\ (forall stored path_params e,
        (forall p, In p stored \/ In p path_params ->
                   parameter_name p <> None) ->
        verify (JList stored) (JList path_params) = Raise e ->
        e = ParameterMismatch).

(** What the value at the key [parameters] of a path item says of the
    parameter [n]: it is a list that holds a parameter of that name with
    the type [ty], or it is the operation that a method named like the key
    has put in the place of the list. *)
Definition declares (n ty : string) (v : json) : Prop :=
  (exists path_params p,
      v = JList path_params
      /\ In p path_params
      /\ parameter_name p = Some n
      /\ parameter_type p = Some ty)
  \/ exists op, v = JObj op.

(** [responses_definition]: the fallback entry first, then one entry per
    declared status code.  The guard [if d.response_body_schema] only
    skips a loop over nothing. *)
Definition responses_definition_of (d : PathDefinition) : dict :=
  fold_left
    (fun responses_definition cs =>
       let response_definition :=
         match snd cs with
         | Some schema => _get_response_definition schema
         | None => [ (sw.description, JStr "No response body.") ]
         end in
       dict_set (str (fst cs)) (JObj response_definition)
                responses_definition)
    (response_body_schema d)
    [ (sw.default,
       JObj (_get_response_definition (default_response_schema self))) ].

(** [parameters_definition]: the query-string parameters, then the
    headers. *)
Definition parameters_definition_of (d : PathDefinition)
    (default_headers_schema : option Schema) : list json :=
  let query :=
    match query_string_schema d with
    | Some schema =>
        _convert_schema_to_list_of_parameters
          schema (_query_string_converter self) sw.query
    | None => []
    end in
  let headers_schema :=
    match headers_schema d with
    | USE_DEFAULT => default_headers_schema
    | Explicit h => h
    end in
  let headers :=
    match headers_schema with
    | Some schema =>
        _convert_schema_to_list_of_parameters
          schema (_headers_converter self) sw.header
    | None => []
    end in
  query ++ headers.

(** [request_body]: [None] without a request body schema. *)
Definition request_body_of (d : PathDefinition) : option dict :=
  match request_body_schema d with
  | Some schema =>
      Some [ (sw.required, JBool true);
             (sw.content,
              JObj [ ("application/json",
                      JObj [ (sw.schema,
                              get_ref_schema ext _ref_base schema) ]) ]) ]
  | None => None
  end.

(** The loop over [d.authenticators]: the flag [non_default] and the list
    [security] it leaves. *)
Definition security_of (auths : list (or_default Authenticator))
    (default_security : option (list json)) : bool * list json :=
  fold_left
    (fun st authenticator =>
       match authenticator with
       | Explicit a =>
           (true, snd st ++ get_security_requirements ext a)
       | USE_DEFAULT =>
           match default_security with
           | Some ds => (fst st, snd st ++ ds)
           | None => st
           end
       end)
    auths (false, []).

(** A guarded assignment, [if cond: d[k] = v]: [None] when the guard
    fails. *)
Definition dict_set_opt (k : string) (v : option json) (d : dict) : dict :=
  match v with
  | Some v => dict_set k v d
  | None => d
  end.

(** The value of the [security] key of an operation, [None] when the
    code assigns none. *)
Definition operation_security_of (d : PathDefinition)
    (default_security : option (list json)) : option json :=
  match authenticators d with
  | [] => Some (JList [])
  | auths =>
      let '(non_default, security) := security_of auths default_security in
      if non_default then Some (JList security) else None
  end.

(** The operation object stored at [path_definition[method_lower]]: the
    literal with [operationId] and [responses], then the guarded
    assignments in the order of the code. *)
Definition operation_of (d : PathDefinition)
    (default_headers_schema : option Schema)
    (default_security : option (list json)) : dict :=
  let op :=
    [ (sw.operation_id,
       JStr match endpoint d with
            | Some (String c r) => String c r
            | _ => get_swagger_title ext (func d)
            end);
      (sw.responses, JObj (responses_definition_of d)) ] in
  let op :=
    dict_set_opt sw.description
      match func_doc ext (func d) with
      | Some (String c r) => Some (JStr (String c r))
      | _ => None
      end op in
  let op :=
    dict_set_opt sw.parameters
      match parameters_definition_of d default_headers_schema with
      | [] => None
      | ps => Some (JList ps)
      end op in
  let op :=
    dict_set_opt sw.request_body (option_map JObj (request_body_of d)) op in
  let op :=
    dict_set_opt sw.security (operation_security_of d default_security) op in
  let op :=
    dict_set_opt sw.tags
      match tags d with
      | [] => None
      | ts => Some (JList (map JStr ts))
      end op in
  let op :=
    dict_set_opt sw.summary
      match summary d with
      | Some (String c r) => Some (JStr (String c r))
      | _ => None
      end op in
  op.

(** [not self.include_hidden and all(d.hidden for method, d in
    methods.items())]: the whole path is skipped. *)
Definition path_skipped (methods : list (string * PathDefinition)) : bool :=
  negb (include_hidden self) && forallb (fun md => hidden (snd md)) methods.

(** [not self.include_hidden and d.hidden]: the method is skipped. *)
Definition method_skipped (d : PathDefinition) : bool :=
  negb (include_hidden self) && hidden d.

(** The loop over the methods of one path. *)
Definition add_methods (default_headers_schema : option Schema)
    (default_security : option (list json))
    (methods : list (string * PathDefinition)) (path_definition : dict)
  : dict :=
  fold_left
    (fun path_definition md =>
       if method_skipped (snd md) then path_definition
       else dict_set (lower (fst md))
              (JObj (operation_of (snd md) default_headers_schema
                       default_security))
              path_definition)
    methods path_definition.

(** The path parameters of one path: built, verified against the ones an
    earlier path stored for the same spec path, then stored. *)
Definition add_path_params (path_args : list PathArgument)
    (path_definition : dict) : result dict :=
  match path_args with
  | [] => Ok path_definition
  | _ :: _ =>
      path_params <- path_params_of path_args ;;
      _ <- match dict_get sw.parameters path_definition with
           | Some stored =>
               verify_parameters_are_the_same ext stored (JList path_params)
           | None => Ok tt
           end ;;
      Ok (dict_set sw.parameters (JList path_params) path_definition)
  end.

(** One iteration of the loop over [paths.items()].  [path_definition]
    aliases the dictionary stored in [path_definitions]: the iteration
    ends by storing the updated dictionary at its key, which by then
    exists. *)
Definition path_step (default_headers_schema : option Schema)
    (default_security : option (list json))
    (path_definitions : list (string * dict))
    (item : string * list (string * PathDefinition))
  : result (list (string * dict)) :=
  let '(path, methods) := item in
  let '(spec_path, path_args) := format_path_for_swagger ext path in
  if path_skipped methods then Ok path_definitions
  else
    let path_definitions :=
      if dict_mem spec_path path_definitions then path_definitions
      else dict_set spec_path [] path_definitions in
    let path_definition :=
      match dict_get spec_path path_definitions with
      | Some pd => pd
      | None => []
      end in
    path_definition <- add_path_params path_args path_definition ;;
    let path_definition :=
      add_methods default_headers_schema default_security methods
                  path_definition in
    Ok (dict_set spec_path path_definition path_definitions).

Definition _get_paths (paths : list (string * list (string * PathDefinition)))
    (default_headers_schema : option Schema)
    (default_security : option (list json))
  : result (list (string * dict)) :=
  for_each (path_step default_headers_schema default_security) paths [].

(** The nested dictionary [path_definitions] as a value of the document. *)
Definition paths_json (path_definitions : list (string * dict)) : json :=
  JObj (map (fun sp => (fst sp, JObj (snd sp))) path_definitions).

(** ** [_get_components] *)

Definition _get_components (registry : HandlerRegistry) : result dict :=
  schemas <- get_unique_schema_definitions ext registry _ref_base
               (default_response_schema self) (_response_converter self)
               (_request_body_converter self) ;;
  let components :=
    match schemas with
    | [] => []
    | _ => [ (sw.schemas, JObj schemas) ]
    end in
  let security_schemes :=
    fold_left
      (fun security_schemes authenticator =>
         dict_update security_schemes
                     (get_security_schemes ext authenticator))
      (get_unique_authenticators ext registry) [] in
  Ok match security_schemes with
     | [] => components
     | _ => dict_set sw.security_schemes (JObj security_schemes) components
     end.

(** ** [generate] *)

(** [default_security]: the requirements of the registry's default
    authenticators, in order. *)
Definition default_security_of (registry : HandlerRegistry) : list json :=
  flat_map (get_security_requirements ext) (default_authenticators registry).

(** The dictionary [swagger] that [generate] assembles from the components
    and the paths, before the keys are sorted. *)
Definition swagger_of (registry : HandlerRegistry) (host : option string)
    (components : dict) (paths : list (string * dict)) : dict :=
  let default_security := default_security_of registry in
  let swagger : dict :=
    [ (sw.openapi, get_open_api_version ext);
      (sw.info, _get_info ext);
      (sw.paths, paths_json paths);
      (sw.components, JObj components) ] in
  let swagger :=
    match default_security with
    | [] => swagger
    | _ => dict_set sw.security (JList default_security) swagger
    end in
  let swagger :=
    match self_tags self with
    | Some ((_ :: _) as ts) =>
        dict_set sw.tags (JList (map (tag_as_swagger ext) ts)) swagger
    | _ => swagger
    end in
  let servers := match servers self with Some l => l | None => [] end in
  let servers :=
    match host with
    | Some (String c r) => servers ++ [Server_of_url ext (String c r)]
    | _ => servers
    end in
  let swagger :=
    match servers with
    | [] => swagger
    | _ => dict_set sw.servers (JList (map (server_as_swagger ext) servers))
             swagger
    end in
  swagger.

Definition generate (registry : HandlerRegistry) (host : option string)
    (sort_keys : bool) : result json :=
  components <- _get_components registry ;;
  let default_security := default_security_of registry in
  paths <- _get_paths (paths registry) (default_headers_schema registry)
             (Some default_security) ;;
  let swagger := swagger_of registry host components paths in
  Ok (if sort_keys
      then recursively_convert_dict_to_ordered_dict (JObj swagger)
      else JObj swagger).

(** [generate_swagger] *)
Definition generate_swagger (registry : HandlerRegistry)
    (host : option string) : result json :=
  generate registry host true.

(** ** Where an entry of the output comes from *)

(** An entry [(k, v)] of the path item at [spec_path] comes from the
    registry: it is the parameter list of a path that is not skipped and
    formats to [spec_path], or the operation of a method that is not
    skipped on such a path. *)
Definition emitted_entry
    (paths : list (string * list (string * PathDefinition)))
    (default_headers_schema : option Schema)
    (default_security : option (list json))
    (spec_path k : string) (v : json) : Prop :=
  (exists path methods path_params,
      In (path, methods) paths
      /\ path_skipped methods = false
      /\ fst (format_path_for_swagger ext path) = spec_path
      /\ path_params_of (snd (format_path_for_swagger ext path))
         = Ok path_params
      /\ k = sw.parameters
      /\ v = JList path_params)
  \/ (exists path methods method d,
         In (path, methods) paths
         /\ In (method, d) methods
         /\ path_skipped methods = false
         /\ method_skipped d = false
         /\ fst (format_path_for_swagger ext path) = spec_path
         /\ k = lower method
         /\ v = JObj (operation_of d default_headers_schema
                        default_security)).

(** The entry of a declared response: the definition of its schema, or the
    description of an absent body. *)
Definition response_entry (schema : option Schema) : dict :=
  match schema with
  | Some schema => _get_response_definition schema
  | None => [ (sw.description, JStr "No response body.") ]
  end.

End Generator.

(** ** The dictionaries that the converters hand out *)

(** [_convert_schema_to_list_of_parameters] pops the hints from the
    dictionary that the converter returned, in place, and puts that
    dictionary into the parameter.  What a later call of the converter
    finds depends on whether the converter hands out that dictionary
    again.  The dictionaries of the converters are kept in a heap, by
    address; every other value that [generate] reads is left as it is, and
    what it writes to it has built itself. *)
Definition address : Type := nat.

Definition heap : Type := list (address * dict).

Fixpoint heap_get (a : address) (h : heap) : option dict :=
  match h with
  | [] => None
  | (b, d) :: r => if Nat.eqb a b then Some d else heap_get a r
  end.

Fixpoint heap_set (a : address) (d : dict) (h : heap) : heap :=
  match h with
  | [] => [(a, d)]
  | (b, d') :: r =>
      if Nat.eqb a b then (a, d) :: r else (b, d') :: heap_set a d r
  end.

(** An address that the heap does not hold. *)
Definition fresh_address (h : heap) : address :=
  S (fold_right Nat.max 0 (map fst h)).

(** A converter as the callable it is: called on a field, it returns a
    dictionary, by its address, and may have built it in the heap. *)
Definition converter_object (Field : Type) : Type :=
  Field -> heap -> address * heap.

(** The converter builds a new dictionary at each call, with the content
    [view field]: what a converter does that is a pure function of the
    field. *)
Definition returns_new_dictionary {Field : Type}
    (converter : converter_object Field) (view : Field -> dict) : Prop :=
  forall field h,
    exists a,
      heap_get a h = None
      /\ converter field h = (a, heap_set a (view field) h).

(** No dictionary of the heap [h] has changed in [h']. *)
Definition heap_kept (h h' : heap) : Prop :=
  forall a d, heap_get a h = Some d -> heap_get a h' = Some d.

Section InPlace.

Variables Schema Field Authenticator Func Tag Server : Type.
Variable ext : Collaborators Schema Field Authenticator Func Tag Server.
Variable self : SwaggerV3Generator Schema Field Tag Server.

(** [self._query_string_converter] and [self._headers_converter], as
    callables on the heap. *)
Variable query_string_converter : converter_object Field.
Variable headers_converter : converter_object Field.

(** The body of the loop of [_convert_schema_to_list_of_parameters], lines
    361-381: the three [pop] change the dictionary at the address that
    the converter returned.  The parameter holds that dictionary itself;
    [generate] changes it no more after the three [pop] (on a second
    visit they find nothing to remove), so the parameter is given with the
    content that the dictionary then has.  An address that the heap does
    not hold reads as the empty dictionary; no converter returns one. *)
Definition parameter_in_place (converter : converter_object Field)
    (in_ prop : string) (field : Field) (h : heap) : dict * heap :=
  let '(a, h) := converter field h in
  let jsonschema := match heap_get a h with Some d => d | None => [] end in
  let '(explode, jsonschema) := dict_pop sw.explode jsonschema in
  let '(description, jsonschema) := dict_pop sw.description jsonschema in
  let '(style, jsonschema) := dict_pop sw.style jsonschema in
  let h := heap_set a jsonschema h in
  let parameter :=
    [ (sw.name, JStr prop);
      (sw.in_, JStr in_);
      (sw.schema, JObj jsonschema);
      (sw.required, JBool (field_required ext field)) ] in
  let parameter := set_if_not_none sw.explode explode parameter in
  let parameter := set_if_not_none sw.description description parameter in
  let parameter := set_if_not_none sw.style style parameter in
  (parameter, h).

Fixpoint flatten_in_place (converter : converter_object Field)
    (in_ : string) (fields : list (string * Field)) (h : heap)
  : list json * heap :=
  match fields with
  | [] => ([], h)
  | (prop, field) :: rest =>
      let '(parameter, h) := parameter_in_place converter in_ prop field h in
      let '(parameters, h) := flatten_in_place converter in_ rest h in
      (JObj parameter :: parameters, h)
  end.

Definition _convert_schema_to_list_of_parameters_in_place (schema : Schema)
    (converter : converter_object Field) (in_ : string) (h : heap)
  : list json * heap :=
  flatten_in_place converter in_ (get_schema_fields ext schema) h.

(** [parameters_definition], lines 227-250. *)
Definition parameters_definition_in_place
    (d : PathDefinition Schema Authenticator Func)
    (default_headers_schema : option Schema) (h : heap) : list json * heap :=
  let '(query, h) :=
    match query_string_schema d with
    | Some schema =>
        _convert_schema_to_list_of_parameters_in_place
          schema query_string_converter sw.query h
    | None => ([], h)
    end in
  let headers_schema :=
    match headers_schema d with
    | USE_DEFAULT => default_headers_schema
    | Explicit hs => hs
    end in
  let '(headers, h) :=
    match headers_schema with
    | Some schema =>
        _convert_schema_to_list_of_parameters_in_place
          schema headers_converter sw.header h
    | None => ([], h)
    end in
  (query ++ headers, h).

(** The operation object of an endpoint whose [parameters_definition] is
    given: [operation_of], with the list in the place of its
    computation. *)
Definition operation_with (d : PathDefinition Schema Authenticator Func)
    (parameters_definition : list json)
    (default_security : option (list json)) : dict :=
  let op :=
    [ (sw.operation_id,
       JStr match endpoint d with
            | Some (String c r) => String c r
            | _ => get_swagger_title ext (func d)
            end);
      (sw.responses, JObj (responses_definition_of ext self d)) ] in
  let op :=
    dict_set_opt sw.description
      match func_doc ext (func d) with
      | Some (String c r) => Some (JStr (String c r))
      | _ => None
      end op in
  let op :=
    dict_set_opt sw.parameters
      match parameters_definition with
      | [] => None
      | ps => Some (JList ps)
      end op in
  let op :=
    dict_set_opt sw.request_body
      (option_map JObj (request_body_of ext d)) op in
  let op :=
    dict_set_opt sw.security (operation_security_of ext d default_security)
      op in
  let op :=
    dict_set_opt sw.tags
      match tags d with
      | [] => None
      | ts => Some (JList (map JStr ts))
      end op in
  let op :=
    dict_set_opt sw.summary
      match summary d with
      | Some (String c r) => Some (JStr (String c r))
      | _ => None
      end op in
  op.

Definition operation_in_place (d : PathDefinition Schema Authenticator Func)
    (default_headers_schema : option Schema)
    (default_security : option (list json)) (h : heap) : dict * heap :=
  let '(parameters_definition, h) :=
    parameters_definition_in_place d default_headers_schema h in
  (operation_with d parameters_definition default_security, h).

(** The loop over the methods of one path. *)
Definition add_methods_in_place (default_headers_schema : option Schema)
    (default_security : option (list json))
    (methods : list (string * PathDefinition Schema Authenticator Func))
    (path_definition : dict) (h : heap) : dict * heap :=
  fold_left
    (fun st md =>
       if method_skipped self (snd md) then st
       else
         let '(op, h) :=
           operation_in_place (snd md) default_headers_schema
             default_security (snd st) in
         (dict_set (lower (fst md)) (JObj op) (fst st), h))
    methods (path_definition, h).

(** One iteration of the loop over [paths.items()]. *)
Definition path_step_in_place (default_headers_schema : option Schema)
    (default_security : option (list json))
    (path_definitions : list (string * dict))
    (item : string * list (string *
                             PathDefinition Schema Authenticator Func))
    (h : heap) : result (list (string * dict)) * heap :=
  let '(path, methods) := item in
  let '(spec_path, path_args) := format_path_for_swagger ext path in
  if path_skipped self methods then (Ok path_definitions, h)
  else
    let path_definitions :=
      if dict_mem spec_path path_definitions then path_definitions
      else dict_set spec_path [] path_definitions in
    let path_definition :=
      match dict_get spec_path path_definitions with
      | Some pd => pd
      | None => []
      end in
    match add_path_params ext self path_args path_definition with
    | Raise e => (Raise e, h)
    | Ok path_definition =>
        let '(path_definition, h) :=
          add_methods_in_place default_headers_schema default_security
            methods path_definition h in
        (Ok (dict_set spec_path path_definition path_definitions), h)
    end.

(** A [for] loop whose body may raise and changes the heap: the heap is
    as the body left it, also when it raises. *)
Fixpoint for_each_in_place {A S : Type}
    (body : S -> A -> heap -> result S * heap) (l : list A) (s : S)
    (h : heap) : result S * heap :=
  match l with
  | [] => (Ok s, h)
  | x :: r =>
      match body s x h with
      | (Ok s', h') => for_each_in_place body r s' h'
      | (Raise e, h') => (Raise e, h')
      end
  end.

Definition _get_paths_in_place
    (paths : list (string * list (string *
                PathDefinition Schema Authenticator Func)))
    (default_headers_schema : option Schema)
    (default_security : option (list json)) (h : heap)
  : result (list (string * dict)) * heap :=
  for_each_in_place
    (path_step_in_place default_headers_schema default_security) paths [] h.

(** [generate], with the heap it leaves.  The collection of the schema
    definitions is a collaborator and is taken to leave the heap as it
    is. *)
Definition generate_in_place
    (registry : HandlerRegistry Schema Authenticator Func)
    (host : option string) (sort_keys : bool) (h : heap)
  : result json * heap :=
  match _get_components ext self registry with
  | Raise e => (Raise e, h)
  | Ok components =>
      let default_security := default_security_of ext registry in
      match _get_paths_in_place (paths registry)
              (default_headers_schema registry) (Some default_security) h
      with
      | (Raise e, h) => (Raise e, h)
      | (Ok paths, h) =>
          let swagger := swagger_of ext self registry host components paths in
          (Ok (if sort_keys
               then recursively_convert_dict_to_ordered_dict (JObj swagger)
               else JObj swagger), h)
      end
  end.

End InPlace.

(** ** The path formatter *)

(** Splits the text of a placeholder at its first colon: the converter tag
    and the name, or [None] when there is no tag. *)
Fixpoint split_tag (inner : string) : option (string * string) :=
  match inner with
  | EmptyString => None
  | String c r =>
      if Ascii.eqb c ":" then Some (EmptyString, r)
      else match split_tag r with
           | Some (tag, nm) => Some (String c tag, nm)
           | None => None
           end
  end.

(** The argument a placeholder declares.  The spec leaves the tag of an
    untagged placeholder open; it is taken to be the string type's. *)
Definition placeholder_arg (inner : string) : PathArgument :=
  match split_tag inner with
  | Some (tag, nm) => {| name := nm; type := tag |}
  | None => {| name := inner; type := "string" |}
  end.

(** The scan of a template: [inside] holds the text read since an opening
    bracket that is not closed yet. *)
Fixpoint format_from (inside : option string) (template : string)
  : string * list PathArgument :=
  match template with
  | EmptyString =>
      (match inside with Some inner => String "<" inner | None => EmptyString end,
       [])
  | String c r =>
      match inside with
      | None =>
          if Ascii.eqb c "<" then format_from (Some EmptyString) r
          else let '(out, args) := format_from None r in (String c out, args)
      | Some inner =>
          if Ascii.eqb c ">" then
            let arg := placeholder_arg inner in
            let '(out, args) := format_from None r in
            (("{" ++ name arg ++ "}" ++ out)%string, arg :: args)
          else format_from (Some (inner ++ String c EmptyString)%string) r
      end
  end.

(** Modelled from the spec: [format_path_for_swagger] of [generator_utils]
    is not part of the sources at hand.  By the spec, "framework path
    syntax embeds a parameter name and an optional converter/type tag per
    placeholder (e.g. [<int:id>]); output syntax uses a different
    placeholder convention (e.g. [{id}])", and the formatter returns the
    spec path template with the ordered path arguments. *)
Definition spec_format_path_for_swagger (path : string)
  : string * list PathArgument :=
  format_from None path.

(** ** The verification of the path parameters *)

(** Two parameters that declare the same name and the same type. *)
Definition same_declaration (p q : json) : bool :=
  same_type (parameter_name p) (parameter_name q)
  && same_type (parameter_type p) (parameter_type q).

(** Modelled from the spec: an instance of [verify_parameters_are_the_same]
    for the examples.  It signals the "parameter-mismatch failure" of the
    spec unless every parameter of either list is declared in the other one
    with the same name and the same type, so also "if the two occurrences
    declare different types for the same named parameter".  A value that
    is not a list has no parameters to read: Python raises its
    [TypeError]. *)
Definition spec_verify_parameters_are_the_same (a b : json) : result unit :=
  match a, b with
  | JList la, JList lb =>
      if forallb (fun p => existsb (same_declaration p) lb) la
         && forallb (fun q => existsb (same_declaration q) la) lb
      then Ok tt
      else Raise ParameterMismatch
  | _, _ => Raise TypeError
  end.

(** ** An instance for the examples *)

(** Collaborators for the examples: a schema is its name, a field is its
    required flag with the descriptor its converter returns, an
    authenticator is the name of its scheme, a handler function is its
    title with its documentation string, a tag and a server are their
    name and URL.  Every schema has the same two fields. *)
Definition example_fields : list (string * (bool * dict)) :=
  [ ("limit", (false, [ ("type", JStr "integer");
                        ("description", JStr "Page size") ]));
    ("ids", (true, [ ("type", JStr "array");
                     ("explode", JBool true);
                     ("style", JNull) ])) ].

Definition example_collaborators
  : Collaborators string (bool * dict) string (string * option string)
                  string string :=
  {| format_path_for_swagger := spec_format_path_for_swagger;
     verify_parameters_are_the_same := spec_verify_parameters_are_the_same;
     get_response_description := fun schema => schema;
     get_ref_schema := fun base schema =>
       JObj [ ("$ref", JStr (base ++ "/" ++ schema)%string) ];
     get_swagger_title := fun f => fst f;
     func_doc := fun f => snd f;
     get_schema_fields := fun _ => example_fields;
     field_required := fun field => fst field;
     get_security_requirements := fun a => [ JObj [ (a, JList []) ] ];
     get_security_schemes := fun a =>
       [ (a, JObj [ ("type", JStr "apiKey") ]) ];
     get_unique_schema_definitions := fun _ _ _ _ _ => Ok [];
     get_unique_authenticators := fun registry =>
       default_authenticators registry;
     tag_as_swagger := fun t => JObj [ ("name", JStr t) ];
     server_as_swagger := fun u => JObj [ ("url", JStr u) ];
     Server_of_url := fun u => u;
     get_open_api_version := JStr "3.1.0";
     _get_info := JObj [ ("version", JStr "1.0.0"); ("title", JStr "My API") ]
  |}.

(** A generator for the examples, with a lookup table of five converter
    tags. *)
Definition example_generator (include_hidden : bool)
  : SwaggerV3Generator string (bool * dict) string string :=
  {| self_tags := None;
     servers := None;
     default_response_schema := "Error";
     include_hidden := include_hidden;
     flask_converters_to_swagger_types :=
       [ ("uuid", "string"); ("string", "string"); ("path", "string");
         ("int", "integer"); ("float", "number") ];
     _query_string_converter := fun field => snd field;
     _headers_converter := fun field => snd field;
     _request_body_converter := fun _ => [];
     _response_converter := fun _ => []
  |}.

(** A generator for the examples that has a tag and a server of its own. *)
Definition tagged_generator
  : SwaggerV3Generator string (bool * dict) string string :=
  {| self_tags := Some [ "widgets" ];
     servers := Some [ "https://eu.example.org" ];
     default_response_schema := "Error";
     include_hidden := false;
     flask_converters_to_swagger_types :=
       [ ("string", "string"); ("int", "integer") ];
     _query_string_converter := fun field => snd field;
     _headers_converter := fun field => snd field;
     _request_body_converter := fun _ => [];
     _response_converter := fun _ => []
  |}.

(** An endpoint for the examples: a handler with a documentation string,
    one declared response with a schema and one without a body. *)
Definition example_endpoint (hidden : bool)
    (authenticators : list (or_default string))
  : PathDefinition string string (string * option string) :=
  {| func := ("get_widget", Some "Returns a widget.");
     endpoint := None;
     response_body_schema := [ (200%Z, Some "Widget"); (204%Z, None) ];
     query_string_schema := Some "Query";
     request_body_schema := Some "WidgetUpdate";
     headers_schema := USE_DEFAULT;
     authenticators := authenticators;
     tags := [];
     summary := None;
     hidden := hidden
  |}.

(** A registry for the examples, of the given paths, with one default
    authenticator and no default headers schema. *)
Definition example_registry
    (paths : list (string * list (string *
               PathDefinition string string (string * option string))))
  : HandlerRegistry string string (string * option string) :=
  {| paths := paths;
     default_headers_schema := None;
     default_authenticators := [ "apiKey" ]
  |}.

(** A copy of an endpoint with the given [hidden] flag. *)
Definition with_hidden {Schema Authenticator Func : Type} (b : bool)
    (d : PathDefinition Schema Authenticator Func)
  : PathDefinition Schema Authenticator Func :=
  {| func := func d;
     endpoint := endpoint d;
     response_body_schema := response_body_schema d;
     query_string_schema := query_string_schema d;
     request_body_schema := request_body_schema d;
     headers_schema := headers_schema d;
     authenticators := authenticators d;
     tags := tags d;
     summary := summary d;
     hidden := b
  |}.

(** Two templates of one spec path whose placeholder [id] has different
    converter tags; the second one is hidden or not. *)
Definition widgets_by_int
  : string * list (string *
      PathDefinition string string (string * option string)) :=
  ("/widgets/<int:id>", [ ("GET", example_endpoint false []) ]).

Definition widgets_by_string (hidden : bool)
  : string * list (string *
      PathDefinition string string (string * option string)) :=
  ("/widgets/<string:id>", [ ("GET", example_endpoint hidden []) ]).

Definition conflicting_registry (hidden : bool)
  : HandlerRegistry string string (string * option string) :=
  example_registry [ widgets_by_int; widgets_by_string hidden ].

(** A hidden path whose placeholder has a tag that the table of the
    examples does not hold. *)
Definition widgets_by_unknown
  : string * list (string *
      PathDefinition string string (string * option string)) :=
  ("/widgets/<hex:id>", [ ("GET", example_endpoint true []) ]).

(** A converter for the examples that builds a new dictionary at each
    call, with the content [view field]. *)
Definition new_dictionary_converter {Field : Type} (view : Field -> dict)
  : converter_object Field :=
  fun field h => (fresh_address h, heap_set (fresh_address h) (view field) h).

(** A converter for the examples that keeps one dictionary, at the address
    0, and hands it out at every call; and a heap that holds this
    dictionary, with the hint [explode]. *)
Definition shared_converter : converter_object (bool * dict) :=
  fun _ h => (0, h).

Definition shared_heap : heap :=
  [ (0, [ ("type", JStr "array"); ("explode", JBool true) ]) ].

(** * Facts *)

(** ** Dictionaries *)

Section DictFacts.
Variable V : Type.
Implicit Types (d : list (string * V)) (k : string) (v : V).

Lemma dict_get_set_same k v d : dict_get k (dict_set k v d) = Some v.
Proof.
  induction d as [|[k' v'] r IH]; simpl.
  - now rewrite String.eqb_refl.
  - destruct (String.eqb k k') eqn:E; simpl.
    + now rewrite String.eqb_refl.
    + now rewrite E.
Qed.

Lemma dict_get_set_other k k' v d :
  k <> k' -> dict_get k (dict_set k' v d) = dict_get k d.
Proof.
  intros Hne. induction d as [|[k0 v0] r IH]; simpl.
  - destruct (String.eqb k k') eqn:E; [|reflexivity].
    apply String.eqb_eq in E. contradiction.
  - destruct (String.eqb k' k0) eqn:E; simpl.
    + apply String.eqb_eq in E. subst k0.
      destruct (String.eqb k k') eqn:E'; [|reflexivity].
      apply String.eqb_eq in E'. contradiction.
    + now rewrite IH.
Qed.

Lemma dict_get_remove_same k d : dict_get k (dict_remove k d) = None.
Proof.
  induction d as [|[k' v'] r IH]; simpl; [reflexivity|].
  destruct (String.eqb k k') eqn:E; simpl; [assumption|].
  now rewrite E.
Qed.

Lemma dict_get_remove_other k k' d :
  k <> k' -> dict_get k (dict_remove k' d) = dict_get k d.
Proof.
  intros Hne. induction d as [|[k0 v0] r IH]; simpl; [reflexivity|].
  destruct (String.eqb k' k0) eqn:E; simpl.
  - apply String.eqb_eq in E. subst k0.
    destruct (String.eqb k k') eqn:E'; [|assumption].
    apply String.eqb_eq in E'. contradiction.
  - now rewrite IH.
Qed.

(** What an assignment can leave in a dictionary. *)
Lemma in_dict_set k v k' v' d :
  In (k, v) (dict_set k' v' d) -> (k = k' /\ v = v') \/ In (k, v) d.
Proof.
  induction d as [|[k0 v0] r IH]; simpl.
  - intros [H|[]]. inversion H. now left.
  - destruct (String.eqb k' k0) eqn:E; simpl.
    + intros [H|H]; [inversion H; now left | right; now right].
    + intros [H|H]; [right; now left|].
      destruct (IH H) as [?|?]; [now left | right; now right].
Qed.

(** An assignment never drops a key. *)
Lemma dict_mem_set_mono k k' v d :
  dict_mem k d = true -> dict_mem k (dict_set k' v d) = true.
Proof.
  unfold dict_mem. intros H.
  destruct (string_dec k k') as [->|Hne].
  - now rewrite dict_get_set_same.
  - now rewrite dict_get_set_other.
Qed.

Lemma dict_get_in k v d : dict_get k d = Some v -> In (k, v) d.
Proof.
  induction d as [|[k' v'] r IH]; simpl; [discriminate|].
  destruct (String.eqb k k') eqn:E.
  - apply String.eqb_eq in E. intros [= ->]. subst. now left.
  - intros H. right. auto.
Qed.

End DictFacts.

(** ** Loops, built-ins and the canonical key order *)

Lemma for_each_app {A S} (body : S -> A -> result S) l1 l2 s :
  for_each body (l1 ++ l2) s = s' <- for_each body l1 s ;; for_each body l2 s'.
Proof.
  revert s. induction l1 as [|x r IH]; intros s; simpl; [reflexivity|].
  destruct (body s x); simpl; auto.
Qed.

Lemma str_inj z1 z2 : str z1 = str z2 -> z1 = z2.
Proof.
  unfold str. intros H.
  assert (E : Some (Z.to_int z1) = Some (Z.to_int z2)).
  { rewrite <- (NilEmpty.isi (Z.to_int z1)), <- (NilEmpty.isi (Z.to_int z2)).
    now rewrite H. }
  injection E as E.
  rewrite <- (DecimalZ.of_to z1), <- (DecimalZ.of_to z2). now rewrite E.
Qed.

(** No status code prints as the key of the fallback response. *)
Lemma str_not_default z : str z <> sw.default.
Proof.
  unfold str. intros H.
  pose proof (NilEmpty.isi (Z.to_int z)) as E. rewrite H in E.
  discriminate E.
Qed.

Lemma ltb_false_leb a b : String.ltb a b = false -> String.leb b a = true.
Proof.
  unfold String.ltb, String.leb. rewrite (String.compare_antisym b a).
  destruct (String.compare a b); simpl; congruence.
Qed.

Lemma ltb_true_leb a b : String.ltb a b = true -> String.leb a b = true.
Proof.
  unfold String.ltb, String.leb. destruct (String.compare a b); congruence.
Qed.

Lemma keys_in_order_insert kv d :
  keys_in_order (map fst d) = true ->
  keys_in_order (map fst (insert_item kv d)) = true.
Proof.
  induction d as [|kv' r IH]; intros H; [reflexivity|].
  cbn [insert_item]. destruct (String.ltb (fst kv) (fst kv')) eqn:E.
  - cbn [map keys_in_order]. cbn [map] in H.
    rewrite (ltb_true_leb _ _ E). exact H.
  - cbn [map] in *. destruct r as [|kv'' r'].
    + cbn. now rewrite (ltb_false_leb _ _ E).
    + cbn [insert_item map keys_in_order] in *.
      apply andb_prop in H. destruct H as [H1 H2].
      specialize (IH H2).
      destruct (String.ltb (fst kv) (fst kv'')) eqn:E'.
      * cbn [map keys_in_order] in *.
        rewrite (ltb_false_leb _ _ E), (ltb_true_leb _ _ E'). exact H2.
      * cbn [map] in IH. cbn [map]. rewrite H1. exact IH.
Qed.

Lemma forallb_insert_item f kv d :
  forallb f (insert_item kv d) = f kv && forallb f d.
Proof.
  induction d as [|kv' r IH]; simpl; [reflexivity|].
  destruct (String.ltb (fst kv) (fst kv')); simpl; [reflexivity|].
  rewrite IH. now destruct (f kv), (f kv'), (forallb f r).
Qed.

Lemma sorted_items_spec f d :
  keys_in_order (map fst (sorted_items d)) = true /\
  forallb f (sorted_items d) = forallb f d.
Proof.
  unfold sorted_items.
  assert (G : forall acc,
             keys_in_order (map fst acc) = true ->
             keys_in_order
               (map fst (fold_left (fun a kv => insert_item kv a) d acc)) = true
             /\ forallb f (fold_left (fun a kv => insert_item kv a) d acc)
                = forallb f acc && forallb f d).
  { induction d as [|kv r IH]; intros acc Hacc; simpl.
    - now rewrite andb_true_r.
    - destruct (IH (insert_item kv acc) (keys_in_order_insert kv acc Hacc))
        as [H1 H2].
      split; [exact H1|]. rewrite H2, forallb_insert_item.
      now destruct (f kv), (forallb f acc), (forallb f r). }
  destruct (G [] eq_refl) as [H1 H2]. split; [exact H1|]. now rewrite H2.
Qed.

(** The conversion leaves every object of the document sorted. *)
Lemma recursively_convert_sorted j :
  sorted_at_every_level (recursively_convert_dict_to_ordered_dict j) = true.
Proof.
  induction j using json_nested_ind; try reflexivity.
  - cbn [recursively_convert_dict_to_ordered_dict sorted_at_every_level].
    induction H as [|x r Hx Hr IH]; simpl; [reflexivity|].
    now rewrite Hx, IH.
  - cbn [recursively_convert_dict_to_ordered_dict sorted_at_every_level].
    match goal with
    | |- context [sorted_items ?m] =>
        destruct (sorted_items_spec
                    (fun kv => sorted_at_every_level (snd kv)) m) as [H1 H2]
    end.
    rewrite H1, H2. clear H1 H2. simpl.
    induction H as [|x r Hx Hr IH]; simpl; [reflexivity|].
    now rewrite Hx, IH.
Qed.

(** ** The generator *)

Section GeneratorFacts.

Context {Schema Field Authenticator Func Tag Server : Type}.
Variable ext : Collaborators Schema Field Authenticator Func Tag Server.
Variable self : SwaggerV3Generator Schema Field Tag Server.
Implicit Types (registry : HandlerRegistry Schema Authenticator Func)
  (dhs : option Schema) (ds : option (list json)).

(** ** Reading the keys of a dictionary under construction *)

Lemma dict_get_set_if_not_none_other k k' v d :
  k <> k' -> dict_get k (set_if_not_none k' v d) = dict_get k d.
Proof.
  intros H. destruct v; simpl; try reflexivity;
    now apply dict_get_set_other.
Qed.

Lemma dict_get_set_opt_same k v d :
  dict_get k (dict_set_opt k v d)
  = match v with Some v => Some v | None => dict_get k d end.
Proof. destruct v; simpl; [apply dict_get_set_same | reflexivity]. Qed.

Lemma dict_get_set_opt_other k k' v d :
  k <> k' -> dict_get k (dict_set_opt k' v d) = dict_get k d.
Proof.
  intros H. destruct v; simpl; [now apply dict_get_set_other | reflexivity].
Qed.

(** Reads a key of an operation: every assignment to another key is
    passed over. *)
Ltac read_operation :=
  unfold operation_of;
  repeat first
    [ rewrite dict_get_set_opt_other by (vm_compute; discriminate)
    | rewrite dict_get_set_opt_same ].

Lemma operation_responses d dhs ds :
  dict_get sw.responses (operation_of ext self d dhs ds)
  = Some (JObj (responses_definition_of ext self d)).
Proof. read_operation. reflexivity. Qed.

Lemma operation_request_body d dhs ds :
  dict_get sw.request_body (operation_of ext self d dhs ds)
  = option_map JObj (request_body_of ext d).
Proof. read_operation. now destruct (request_body_of ext d). Qed.

Lemma operation_security d dhs ds :
  dict_get sw.security (operation_of ext self d dhs ds)
  = operation_security_of ext d ds.
Proof. read_operation. now destruct (operation_security_of ext d ds). Qed.

(** ** The parameter flattener *)

Lemma parameter_of_field_eq (converter : Field -> dict) in_ prop field :
  parameter_of_field ext converter in_ prop field
  = set_if_not_none sw.style
      (fst (dict_pop sw.style
              (dict_remove sw.description
                 (dict_remove sw.explode (converter field)))))
      (set_if_not_none sw.description
         (fst (dict_pop sw.description
                 (dict_remove sw.explode (converter field))))
         (set_if_not_none sw.explode
            (fst (dict_pop sw.explode (converter field)))
            [ (sw.name, JStr prop);
              (sw.in_, JStr in_);
              (sw.schema,
               JObj (dict_remove sw.style
                       (dict_remove sw.description
                          (dict_remove sw.explode (converter field)))));
              (sw.required, JBool (field_required ext field)) ])).
Proof. reflexivity. Qed.

Lemma dict_get_set_popped k (js d : dict) :
  dict_get k d = None ->
  dict_get k (set_if_not_none k (fst (dict_pop k js)) d)
  = match dict_get k js with
    | Some JNull | None => None
    | Some v => Some v
    end.
Proof.
  intros H. unfold dict_pop. simpl.
  destruct (dict_get k js) as [[]|]; simpl;
    rewrite ?dict_get_set_same; auto.
Qed.

(** C8: the flattened parameter of a field carries each of the hints
    explode, description and style at its own top level exactly when the
    field converter produced it with a value other than None, with that
    value and never as null; the nested schema descriptor holds none of the
    three; the required flag is the field's; and the flattener returns one
    such parameter per top-level field, in order. *)
Theorem C8_flattened_parameter_hints
    (schema : Schema) (converter : Field -> dict) (in_ prop : string)
    (field : Field) :
  let parameter := parameter_of_field ext converter in_ prop field in
  let nested :=
    dict_remove sw.style
      (dict_remove sw.description
         (dict_remove sw.explode (converter field))) in
  dict_get sw.schema parameter = Some (JObj nested)
  /\ dict_get sw.required parameter = Some (JBool (field_required ext field))
  /\ Forall
       (fun hint =>
          dict_get hint nested = None
          /\ dict_get hint parameter
             = match dict_get hint (converter field) with
               | Some JNull | None => None
               | Some v => Some v
               end
          /\ dict_get hint parameter <> Some JNull)
       [ sw.explode; sw.description; sw.style ]
  /\ _convert_schema_to_list_of_parameters ext schema converter in_
     = map (fun pf =>
              JObj (parameter_of_field ext converter in_ (fst pf) (snd pf)))
           (get_schema_fields ext schema).
Proof.
  intros parameter nested. subst parameter.
  rewrite parameter_of_field_eq. fold nested.
  set (js := converter field) in *.
  set (base := [ (sw.name, JStr prop); (sw.in_, JStr in_);
                 (sw.schema, JObj nested);
                 (sw.required, JBool (field_required ext field)) ]).
  assert (Hex : dict_get sw.explode
                  (set_if_not_none sw.explode (fst (dict_pop sw.explode js))
                     base)
                = match dict_get sw.explode js with
                  | Some JNull | None => None
                  | Some v => Some v
                  end).
  { now apply dict_get_set_popped. }
  assert (Hde : dict_get sw.description
                  (set_if_not_none sw.description
                     (fst (dict_pop sw.description
                             (dict_remove sw.explode js)))
                     (set_if_not_none sw.explode
                        (fst (dict_pop sw.explode js)) base))
                = match dict_get sw.description js with
                  | Some JNull | None => None
                  | Some v => Some v
                  end).
  { rewrite dict_get_set_popped.
    - now rewrite dict_get_remove_other by (vm_compute; discriminate).
    - now rewrite dict_get_set_if_not_none_other by (vm_compute; discriminate). }
  repeat split.
  - rewrite !dict_get_set_if_not_none_other by (vm_compute; discriminate).
    reflexivity.
  - rewrite !dict_get_set_if_not_none_other by (vm_compute; discriminate).
    reflexivity.
  - repeat constructor.
    + subst nested.
      rewrite !dict_get_remove_other by (vm_compute; discriminate).
      apply dict_get_remove_same.
    + rewrite !dict_get_set_if_not_none_other by (vm_compute; discriminate).
      exact Hex.
    + rewrite !dict_get_set_if_not_none_other by (vm_compute; discriminate).
      rewrite Hex. now destruct (dict_get sw.explode js) as [[]|].
    + subst nested.
      rewrite !dict_get_remove_other by (vm_compute; discriminate).
      apply dict_get_remove_same.
    + rewrite !dict_get_set_if_not_none_other by (vm_compute; discriminate).
      exact Hde.
    + rewrite !dict_get_set_if_not_none_other by (vm_compute; discriminate).
      rewrite Hde. now destruct (dict_get sw.description js) as [[]|].
    + subst nested. apply dict_get_remove_same.
    + rewrite dict_get_set_popped.
      * now rewrite !dict_get_remove_other by (vm_compute; discriminate).
      * now rewrite !dict_get_set_if_not_none_other
          by (vm_compute; discriminate).
    + rewrite dict_get_set_popped.
      * rewrite !dict_get_remove_other by (vm_compute; discriminate).
        now destruct (dict_get sw.style js) as [[]|].
      * now rewrite !dict_get_set_if_not_none_other
          by (vm_compute; discriminate).
Qed.

(** ** The operation of an endpoint *)

(** C9: an endpoint that declares a request body schema has a request body
    marked required whose content holds exactly one media type,
    application/json, with the reference of that schema under the base
    [#/components/schemas]; an endpoint without one has no request-body
    key. *)
Theorem C9_request_body_entry
    (d : PathDefinition Schema Authenticator Func) dhs ds :
  dict_get sw.request_body (operation_of ext self d dhs ds)
  = match request_body_schema d with
    | Some schema =>
        Some (JObj
                [ (sw.required, JBool true);
                  (sw.content,
                   JObj [ ("application/json",
                           JObj [ (sw.schema,
                                   get_ref_schema ext "#/components/schemas"
                                     schema) ]) ]) ])
    | None => None
    end.
Proof.
  rewrite operation_request_body. unfold request_body_of.
  now destruct (request_body_schema d).
Qed.

(** The loop over the authenticators, in closed form: the flag tells
    whether an authenticator other than the sentinel occurs, the list
    concatenates the requirements of every entry, the default security
    standing for the sentinel. *)
Lemma security_of_closed_form (auths : list (or_default Authenticator))
    (default_security : list json) :
  security_of ext auths (Some default_security)
  = (existsb (fun a => match a with Explicit _ => true | _ => false end) auths,
     flat_map (fun a => match a with
                        | Explicit x => get_security_requirements ext x
                        | USE_DEFAULT => default_security
                        end) auths).
Proof.
  unfold security_of.
  set (is_concrete := fun a : or_default Authenticator =>
                        match a with Explicit _ => true | _ => false end).
  set (requirements := fun a : or_default Authenticator =>
                         match a with
                         | Explicit x => get_security_requirements ext x
                         | USE_DEFAULT => default_security
                         end).
  set (body := fun (st : bool * list json) (a : or_default Authenticator) =>
                 match a with
                 | USE_DEFAULT => (fst st, snd st ++ default_security)
                 | Explicit x => (true, snd st ++ get_security_requirements ext x)
                 end).
  assert (G : forall l b acc,
             fold_left body l (b, acc)
             = (b || existsb is_concrete l, acc ++ flat_map requirements l)).
  { induction l as [|a r IH]; intros b acc; simpl.
    - now rewrite orb_false_r, app_nil_r.
    - destruct a as [|x]; simpl; rewrite IH; simpl.
      + now rewrite app_assoc.
      + now rewrite orb_true_r, app_assoc. }
  exact (G auths false []).
Qed.

(** C5: the security key of an operation, as [generate] builds it.  With
    no authenticators the operation carries the empty list; with an
    authenticator other than the sentinel it carries the requirements of
    every concrete authenticator and the registry's default security for
    every sentinel, in order; with sentinels only it carries no security
    key. *)
Theorem C5_operation_security
    (registry : HandlerRegistry Schema Authenticator Func)
    (d : PathDefinition Schema Authenticator Func) :
  let default_security := default_security_of ext registry in
  dict_get sw.security
    (operation_of ext self d (default_headers_schema registry)
       (Some default_security))
  = match authenticators d with
    | [] => Some (JList [])
    | auths =>
        if existsb (fun a => match a with Explicit _ => true | _ => false end)
             auths
        then Some (JList (flat_map
                            (fun a => match a with
                                      | Explicit x =>
                                          get_security_requirements ext x
                                      | USE_DEFAULT => default_security
                                      end) auths))
        else None
    end.
Proof.
  intros default_security. rewrite operation_security.
  unfold operation_security_of.
  destruct (authenticators d) as [|a r]; [reflexivity|].
  now rewrite security_of_closed_form.
Qed.

(** ** The responses of an operation *)

Lemma responses_definition_of_eq (d : PathDefinition Schema Authenticator Func) :
  responses_definition_of ext self d
  = fold_left
      (fun acc cs =>
         dict_set (str (fst cs)) (JObj (response_entry ext (snd cs))) acc)
      (response_body_schema d)
      [ (sw.default,
         JObj (_get_response_definition ext (default_response_schema self))) ].
Proof. reflexivity. Qed.

(** The loop over the declared responses leaves, at the key of a status
    code, the entry of its last declaration, and what was there without
    one. *)
Lemma responses_loop_get (l : list (Z * option Schema)) code (acc : dict) :
  dict_get (str code)
    (fold_left
       (fun acc cs =>
          dict_set (str (fst cs)) (JObj (response_entry ext (snd cs))) acc)
       l acc)
  = match find (fun cs => Z.eqb (fst cs) code) (rev l) with
    | Some cs => Some (JObj (response_entry ext (snd cs)))
    | None => dict_get (str code) acc
    end.
Proof.
  induction l as [|x l IH] using rev_ind; [reflexivity|].
  rewrite fold_left_app, rev_app_distr. simpl.
  destruct (Z.eqb_spec (fst x) code) as [->|Hne].
  - apply dict_get_set_same.
  - rewrite dict_get_set_other; [exact IH|].
    intros E. apply str_inj in E. congruence.
Qed.

(** The loop never touches a key that no status code prints as. *)
Lemma responses_loop_other (l : list (Z * option Schema)) k (acc : dict) :
  (forall code, k <> str code) ->
  dict_get k
    (fold_left
       (fun acc cs =>
          dict_set (str (fst cs)) (JObj (response_entry ext (snd cs))) acc)
       l acc)
  = dict_get k acc.
Proof.
  intros Hk. revert acc. induction l as [|x l IH]; intros acc; simpl.
  - reflexivity.
  - rewrite IH. apply dict_get_set_other. apply Hk.
Qed.

Lemma find_last_declaration (l : list (Z * option Schema)) code schema :
  NoDup (map fst l) -> In (code, schema) l ->
  find (fun cs => Z.eqb (fst cs) code) (rev l) = Some (code, schema).
Proof.
  induction l as [|a l IH]; intros Hnd Hin; [destruct Hin|].
  simpl in Hnd. inversion Hnd as [|? ? Hnotin Hnd']; subst.
  simpl. destruct Hin as [->|Hin].
  - assert (E : find (fun cs => Z.eqb (fst cs) code) (rev l) = None).
    { destruct (find _ (rev l)) as [[c s]|] eqn:F; [|reflexivity].
      apply find_some in F. destruct F as [F1 F2]. simpl in F2.
      apply Z.eqb_eq in F2. subst c. exfalso. apply Hnotin.
      apply in_rev in F1. now apply (in_map fst) in F1. }
    clear IH. revert E. generalize (rev l) as r.
    induction r as [|y r IHr]; simpl.
    + intros _. now rewrite Z.eqb_refl.
    + destruct (Z.eqb (fst y) code); [discriminate | exact IHr].
  - specialize (IH Hnd' Hin). revert IH. generalize (rev l) as r.
    induction r as [|y r IHr]; simpl; [discriminate|].
    destruct (Z.eqb (fst y) code); [auto | exact IHr].
Qed.

Lemma find_no_declaration (l : list (Z * option Schema)) code :
  ~ In code (map fst l) ->
  find (fun cs => Z.eqb (fst cs) code) (rev l) = None.
Proof.
  intros Hnotin.
  destruct (find _ (rev l)) as [[c s]|] eqn:F; [|reflexivity].
  apply find_some in F. destruct F as [F1 F2]. simpl in F2.
  apply Z.eqb_eq in F2. subst c. exfalso. apply Hnotin.
  apply in_rev in F1. now apply (in_map fst) in F1.
Qed.

Lemma responses_default (d : PathDefinition Schema Authenticator Func) :
  dict_get sw.default (responses_definition_of ext self d)
  = Some (JObj (_get_response_definition ext (default_response_schema self))).
Proof.
  rewrite responses_definition_of_eq, responses_loop_other; [reflexivity|].
  intros code E. symmetry in E. exact (str_not_default _ E).
Qed.

Lemma responses_declared
    (d : PathDefinition Schema Authenticator Func) code schema :
  NoDup (map fst (response_body_schema d)) ->
  In (code, schema) (response_body_schema d) ->
  dict_get (str code) (responses_definition_of ext self d)
  = Some (JObj (response_entry ext schema)).
Proof.
  intros Hnd Hin.
  rewrite responses_definition_of_eq, responses_loop_get.
  rewrite (find_last_declaration (response_body_schema d) code schema Hnd Hin).
  reflexivity.
Qed.

Lemma responses_undeclared
    (d : PathDefinition Schema Authenticator Func) code :
  ~ In code (map fst (response_body_schema d)) ->
  dict_get (str code) (responses_definition_of ext self d) = None.
Proof.
  intros Hnotin.
  rewrite responses_definition_of_eq, responses_loop_get.
  rewrite find_no_declaration by assumption. simpl.
  destruct (String.eqb (str code) sw.default) eqn:E; [|reflexivity].
  apply String.eqb_eq in E. destruct (str_not_default _ E).
Qed.

(** C4: when the status codes of an endpoint are declared once each, a
    status code mapped to None has a response entry that is only the
    description of an absent body, with no content; a status code mapped
    to a schema has the response definition of that schema; and a status
    code that is not declared has no entry in the responses of the
    operation. *)
Theorem C4_explicit_no_body_response
    (d : PathDefinition Schema Authenticator Func) dhs ds (code : Z) :
  NoDup (map fst (response_body_schema d)) ->
  dict_get sw.responses (operation_of ext self d dhs ds)
  = Some (JObj (responses_definition_of ext self d))
  /\ (In (code, None) (response_body_schema d) ->
      dict_get (str code) (responses_definition_of ext self d)
      = Some (JObj [ (sw.description, JStr "No response body.") ]))
  /\ (forall schema,
        In (code, Some schema) (response_body_schema d) ->
        dict_get (str code) (responses_definition_of ext self d)
        = Some (JObj (_get_response_definition ext schema)))
  /\ (~ In code (map fst (response_body_schema d)) ->
      dict_get (str code) (responses_definition_of ext self d) = None).
Proof.
  intros Hnd. split; [apply operation_responses|]. repeat split.
  - intros Hin. now apply (responses_declared d code None).
  - intros schema Hin. now apply (responses_declared d code (Some schema)).
  - apply responses_undeclared.
Qed.

(** ** Where the entries of the output come from *)

(** The loop over the methods keeps the entries it found and adds the
    operations of the methods that are not skipped. *)
Lemma add_methods_entries dhs ds
    (methods : list (string * PathDefinition Schema Authenticator Func))
    (path_definition : dict) k v :
  In (k, v) (add_methods ext self dhs ds methods path_definition) ->
  In (k, v) path_definition
  \/ exists method d,
       In (method, d) methods
       /\ method_skipped self d = false
       /\ k = lower method
       /\ v = JObj (operation_of ext self d dhs ds).
Proof.
  unfold add_methods. revert path_definition.
  induction methods as [|[m d] r IH]; intros pd H; simpl in H.
  - now left.
  - apply IH in H. destruct H as [H|(m' & d' & H1 & H2 & H3 & H4)].
    + destruct (method_skipped self d) eqn:E; [now left|].
      apply in_dict_set in H. destruct H as [[-> ->]|H]; [|now left].
      right. exists m, d. repeat split; auto. now left.
    + right. exists m', d'. repeat split; auto. now right.
Qed.

(** The path parameters of a path are stored at the key [parameters], over
    the entry that was there. *)
Lemma add_path_params_entries (path_args : list PathArgument)
    (path_definition path_definition' : dict) k v :
  add_path_params ext self path_args path_definition = Ok path_definition' ->
  In (k, v) path_definition' ->
  In (k, v) path_definition
  \/ exists path_params,
       path_params_of self path_args = Ok path_params
       /\ k = sw.parameters
       /\ v = JList path_params.
Proof.
  unfold add_path_params. destruct path_args as [|a r].
  - intros [= <-] H. now left.
  - destruct (path_params_of self (a :: r)) as [ps|e]; [|discriminate].
    cbn [bind].
    destruct (match dict_get sw.parameters path_definition with
              | Some stored =>
                  verify_parameters_are_the_same ext stored (JList ps)
              | None => Ok tt
              end) as [u|e]; [|discriminate].
    cbn [bind]. intros [= <-] H.
    apply in_dict_set in H. destruct H as [[-> ->]|H]; [|now left].
    right. now exists ps.
Qed.

(** One iteration keeps the invariant that every entry of the output comes
    from the registry. *)
Lemma path_step_entries
    (paths : list (string * list (string *
                PathDefinition Schema Authenticator Func)))
    dhs ds item (s s' : list (string * dict)) :
  In item paths ->
  path_step ext self dhs ds s item = Ok s' ->
  (forall sp pd k v, In (sp, pd) s -> In (k, v) pd ->
                     emitted_entry ext self paths dhs ds sp k v) ->
  forall sp pd k v, In (sp, pd) s' -> In (k, v) pd ->
                    emitted_entry ext self paths dhs ds sp k v.
Proof.
  intros Hitem Hstep Hinv. unfold path_step in Hstep.
  destruct item as [path methods].
  destruct (format_path_for_swagger ext path) as [spec_path path_args] eqn:F.
  destruct (path_skipped self methods) eqn:Hskip.
  { injection Hstep as <-. exact Hinv. }
  set (s1 := if dict_mem spec_path s then s else dict_set spec_path [] s) in *.
  assert (Hinv1 : forall sp pd k v, In (sp, pd) s1 -> In (k, v) pd ->
                    emitted_entry ext self paths dhs ds sp k v).
  { intros sp pd k v H1 H2. subst s1.
    destruct (dict_mem spec_path s); [eauto|].
    apply in_dict_set in H1. destruct H1 as [[-> ->]|H1]; [destruct H2|eauto]. }
  set (pd0 := match dict_get spec_path s1 with Some pd => pd | None => [] end)
    in *.
  assert (Hpd0 : forall k v, In (k, v) pd0 ->
                   emitted_entry ext self paths dhs ds spec_path k v).
  { intros k v H. subst pd0.
    destruct (dict_get spec_path s1) as [pd|] eqn:G; [|destruct H].
    apply dict_get_in in G. eauto. }
  destruct (add_path_params ext self path_args pd0) as [pd1|e] eqn:A;
    [|discriminate].
  cbn [bind] in Hstep. injection Hstep as <-.
  intros sp pd k v H1 H2.
  apply in_dict_set in H1. destruct H1 as [[-> ->]|H1]; [|eauto].
  apply add_methods_entries in H2.
  destruct H2 as [H2|(m & d & M1 & M2 & M3 & M4)].
  - destruct (add_path_params_entries path_args pd0 k v A H2)
      as [H3|(ps & P1 & P2 & P3)]; [auto|].
    left. exists path, methods, ps. rewrite F. simpl. auto 10.
  - right. exists path, methods, m, d. rewrite F. simpl. auto 10.
Qed.

(** Every entry of every path item of the output comes from the
    registry. *)
Lemma get_paths_entries
    (paths : list (string * list (string *
                PathDefinition Schema Authenticator Func)))
    dhs ds (path_definitions : list (string * dict)) :
  _get_paths ext self paths dhs ds = Ok path_definitions ->
  forall sp pd k v, In (sp, pd) path_definitions -> In (k, v) pd ->
                    emitted_entry ext self paths dhs ds sp k v.
Proof.
  unfold _get_paths.
  assert (G : forall l s s',
             (forall x, In x l -> In x paths) ->
             for_each (path_step ext self dhs ds) l s = Ok s' ->
             (forall sp pd k v, In (sp, pd) s -> In (k, v) pd ->
                                emitted_entry ext self paths dhs ds sp k v) ->
             forall sp pd k v, In (sp, pd) s' -> In (k, v) pd ->
                               emitted_entry ext self paths dhs ds sp k v).
  { induction l as [|x r IH]; intros s s' Hsub Hrun Hinv; simpl in Hrun.
    - injection Hrun as <-. exact Hinv.
    - destruct (path_step ext self dhs ds s x) as [s1|e] eqn:E;
        [|discriminate].
      cbn [bind] in Hrun.
      apply (IH s1 s'); [intros y Hy; apply Hsub; now right | exact Hrun |].
      eapply path_step_entries; [apply Hsub; now left | exact E | exact Hinv]. }
  intros Hrun. apply (G paths [] path_definitions); auto.
  intros sp pd k v [].
Qed.

(** C3: every operation of the output of [_get_paths], as [generate] calls
    it, is the operation of an endpoint of the registry, and its responses
    hold the entry [default] built from the configured default response
    schema: alone when the endpoint declares no response, and next to the
    entry of every declared status code otherwise. *)
Theorem C3_default_response_entry
    (registry : HandlerRegistry Schema Authenticator Func)
    (path_definitions : list (string * dict)) sp pd k (op : dict) :
  let dhs := default_headers_schema registry in
  let ds := Some (default_security_of ext registry) in
  _get_paths ext self (paths registry) dhs ds = Ok path_definitions ->
  In (sp, pd) path_definitions ->
  In (k, JObj op) pd ->
  exists path methods method d,
    In (path, methods) (paths registry)
    /\ In (method, d) methods
    /\ op = operation_of ext self d dhs ds
    /\ dict_get sw.responses op
       = Some (JObj (responses_definition_of ext self d))
    /\ dict_get sw.default (responses_definition_of ext self d)
       = Some (JObj (_get_response_definition ext
                       (default_response_schema self)))
    /\ (response_body_schema d = [] ->
        responses_definition_of ext self d
        = [ (sw.default,
             JObj (_get_response_definition ext
                     (default_response_schema self))) ])
    /\ (forall code schema,
          NoDup (map fst (response_body_schema d)) ->
          In (code, schema) (response_body_schema d) ->
          dict_get (str code) (responses_definition_of ext self d)
          = Some (JObj (response_entry ext schema))).
Proof.
  intros dhs ds Hrun Hsp Hk.
  destruct (get_paths_entries _ _ _ Hrun _ _ _ _ Hsp Hk)
    as [(path & methods & ps & _ & _ & _ & _ & _ & Hv)
       |(path & methods & m & d & H1 & H2 & _ & _ & _ & _ & Hv)];
    [discriminate Hv|].
  injection Hv as ->.
  exists path, methods, m, d. repeat split; auto.
  - apply operation_responses.
  - apply responses_default.
  - intros E. rewrite responses_definition_of_eq, E. reflexivity.
  - intros code schema. apply responses_declared.
Qed.

(** ** Path parameters *)

(** Every parameter the comprehension builds has the fixed shape, with a
    type the lookup table gives for the tag of its placeholder. *)
Lemma path_params_of_shape (path_args : list PathArgument)
    (path_params : list json) p :
  path_params_of self path_args = Ok path_params ->
  In p path_params ->
  exists path_arg ty,
    In path_arg path_args
    /\ dict_get (type path_arg) (flask_converters_to_swagger_types self)
       = Some ty
    /\ p = JObj [ (sw.name, JStr (name path_arg));
                  (sw.required, JBool true);
                  (sw.in_, JStr sw.path);
                  (sw.style, JStr sw.simple);
                  (sw.schema, JObj [ (sw.type_, JStr ty) ]) ].
Proof.
  revert path_params. induction path_args as [|a r IH]; intros ps H Hin;
    simpl in H.
  - injection H as <-. destruct Hin.
  - destruct (dict_get (type a) (flask_converters_to_swagger_types self))
      as [ty|] eqn:T; [|discriminate].
    cbn [bind] in H.
    destruct (path_params_of self r) as [ps'|e]; [|discriminate].
    cbn [bind] in H. injection H as <-.
    destruct Hin as [<-|Hin].
    + exists a, ty. repeat split; auto. now left.
    + destruct (IH ps' eq_refl Hin) as (b & tb & B1 & B2 & B3).
      exists b, tb. repeat split; auto. now right.
Qed.

(** The comprehension raises when a tag is missing from the table. *)
Lemma path_params_of_unknown (path_args : list PathArgument) path_arg :
  In path_arg path_args ->
  dict_get (type path_arg) (flask_converters_to_swagger_types self) = None ->
  exists e, path_params_of self path_args = Raise e.
Proof.
  induction path_args as [|a r IH]; intros Hin Hnone; [destruct Hin|].
  simpl.
  destruct (dict_get (type a) (flask_converters_to_swagger_types self))
    as [ty|] eqn:T; cbn [bind]; [|eauto].
  destruct Hin as [->|Hin]; [congruence|].
  destruct (IH Hin Hnone) as [e ->]. cbn [bind]. eauto.
Qed.



(** ** Hidden paths and the canonical order *)

Lemma path_step_skipped dhs ds (s : list (string * dict)) path
    (methods : list (string * PathDefinition Schema Authenticator Func)) :
  path_skipped self methods = true ->
  path_step ext self dhs ds s (path, methods) = Ok s.
Proof.
  intros H. unfold path_step.
  destruct (format_path_for_swagger ext path). now rewrite H.
Qed.

(** A loop does the same on two lists that differ in one item when the
    body does the same at the two items. *)
Lemma for_each_replace {A S} (body : S -> A -> result S) l1 x y l2 s :
  (forall s, body s x = body s y) ->
  for_each body (l1 ++ x :: l2) s = for_each body (l1 ++ y :: l2) s.
Proof.
  intros H. rewrite !for_each_app.
  destruct (for_each body l1 s) as [s1|e]; cbn [bind]; [|reflexivity].
  simpl. now rewrite H.
Qed.

(** A loop skips an item at which the body changes nothing. *)
Lemma for_each_skip {A S} (body : S -> A -> result S) l1 x l2 s :
  (forall s, body s x = Ok s) ->
  for_each body (l1 ++ x :: l2) s = for_each body (l1 ++ l2) s.
Proof.
  intros H. rewrite !for_each_app.
  destruct (for_each body l1 s) as [s1|e]; cbn [bind]; [|reflexivity].
  simpl. now rewrite H.
Qed.

(** C10: when hidden endpoints are excluded and every method of a path is
    hidden, [_get_paths] does for the registry what it does without that
    path, whatever the converter tags and the parameter types of the path
    are; so [generate] raises only when the components or the other paths
    make it raise. *)
Theorem C10_fully_hidden_path_is_skipped
    (registry : HandlerRegistry Schema Authenticator Func)
    l1 path methods l2 :
  include_hidden self = false ->
  forallb (fun md => hidden (snd md)) methods = true ->
  paths registry = l1 ++ (path, methods) :: l2 ->
  (forall dhs ds,
      _get_paths ext self (paths registry) dhs ds
      = _get_paths ext self (l1 ++ l2) dhs ds)
  /\ (forall host sort_keys e,
        generate ext self registry host sort_keys = Raise e ->
        _get_components ext self registry = Raise e
        \/ _get_paths ext self (l1 ++ l2) (default_headers_schema registry)
             (Some (default_security_of ext registry)) = Raise e).
Proof.
  intros Hinc Hall Hpaths.
  assert (Hskip : path_skipped self methods = true).
  { unfold path_skipped. now rewrite Hinc, Hall. }
  assert (E : forall dhs ds,
             _get_paths ext self (paths registry) dhs ds
             = _get_paths ext self (l1 ++ l2) dhs ds).
  { intros dhs ds. rewrite Hpaths. unfold _get_paths.
    apply for_each_skip. intros s. now apply path_step_skipped. }
  split; [exact E|].
  intros host sort_keys e. unfold generate.
  destruct (_get_components ext self registry) as [components|e'];
    cbn [bind]; [|intros [= ->]; now left].
  rewrite E.
  destruct (_get_paths ext self (l1 ++ l2) (default_headers_schema registry)
              (Some (default_security_of ext registry))) as [pds|e'];
    cbn [bind]; [discriminate | intros [= ->]; now right].
Qed.

(** With [sort_keys] the keys of every object of the document that
    [generate] returns are in lexicographic order, at every nesting
    level. *)
Lemma generate_sorted
    (registry : HandlerRegistry Schema Authenticator Func)
    (host : option string) (doc : json) :
  generate ext self registry host true = Ok doc ->
  sorted_at_every_level doc = true.
Proof.
  intros H. unfold generate in H.
  destruct (_get_components ext self registry) as [components|e];
    cbn [bind] in H; [|discriminate].
  destruct (_get_paths ext self (paths registry)
              (default_headers_schema registry)
              (Some (default_security_of ext registry))) as [pds|e];
    cbn [bind] in H; [|discriminate].
  injection H as <-.
  exact (recursively_convert_sorted
           (JObj (swagger_of ext self registry host components pds))).
Qed.

(** ** Hidden endpoints *)

(** The loop over the methods never drops a key. *)
Lemma add_methods_keeps dhs ds
    (methods : list (string * PathDefinition Schema Authenticator Func))
    (path_definition : dict) k :
  dict_mem k path_definition = true ->
  dict_mem k (add_methods ext self dhs ds methods path_definition) = true.
Proof.
  unfold add_methods. revert path_definition.
  induction methods as [|[m d] r IH]; intros pd H; simpl; [exact H|].
  apply IH. destruct (method_skipped self d); [exact H|].
  now apply dict_mem_set_mono.
Qed.

(** A method that is not skipped has its key in the path item. *)
Lemma add_methods_adds dhs ds
    (methods : list (string * PathDefinition Schema Authenticator Func))
    (path_definition : dict) method d :
  In (method, d) methods ->
  method_skipped self d = false ->
  dict_mem (lower method)
    (add_methods ext self dhs ds methods path_definition) = true.
Proof.
  revert path_definition.
  induction methods as [|[m' d'] r IH]; intros pd Hin Hvis; [destruct Hin|].
  destruct Hin as [[= -> ->]|Hin].
  - unfold add_methods. simpl. rewrite Hvis.
    apply (add_methods_keeps dhs ds r). unfold dict_mem.
    now rewrite dict_get_set_same.
  - unfold add_methods. simpl. now apply IH.
Qed.

Lemma add_path_params_keeps (path_args : list PathArgument)
    (path_definition path_definition' : dict) k :
  add_path_params ext self path_args path_definition = Ok path_definition' ->
  dict_mem k path_definition = true ->
  dict_mem k path_definition' = true.
Proof.
  unfold add_path_params. destruct path_args as [|a r].
  - now intros [= <-].
  - destruct (path_params_of self (a :: r)) as [ps|e]; [|discriminate].
    cbn [bind].
    destruct (match dict_get sw.parameters path_definition with
              | Some stored =>
                  verify_parameters_are_the_same ext stored (JList ps)
              | None => Ok tt
              end) as [u|e]; [|discriminate].
    cbn [bind]. intros [= <-] H. now apply dict_mem_set_mono.
Qed.

(** The key [k] is in the path item at [sp]. *)
Lemma path_step_keeps dhs ds item (s s' : list (string * dict)) sp k :
  path_step ext self dhs ds s item = Ok s' ->
  (exists pd, dict_get sp s = Some pd /\ dict_mem k pd = true) ->
  exists pd, dict_get sp s' = Some pd /\ dict_mem k pd = true.
Proof.
  intros Hstep (pd & Hpd & Hk). unfold path_step in Hstep.
  destruct item as [path methods].
  destruct (format_path_for_swagger ext path) as [spec_path path_args].
  destruct (path_skipped self methods).
  { injection Hstep as <-. eauto. }
  set (s1 := if dict_mem spec_path s then s else dict_set spec_path [] s) in *.
  assert (Hs1 : dict_get sp s1 = Some pd).
  { subst s1. destruct (dict_mem spec_path s) eqn:M; [exact Hpd|].
    rewrite dict_get_set_other; [exact Hpd|].
    intros ->. unfold dict_mem in M. now rewrite Hpd in M. }
  destruct (add_path_params ext self path_args
              match dict_get spec_path s1 with
              | Some pd => pd
              | None => []
              end) as [pd1|e] eqn:A; [|discriminate].
  cbn [bind] in Hstep. injection Hstep as <-.
  destruct (string_dec sp spec_path) as [->|Hne].
  - rewrite dict_get_set_same. eexists. split; [reflexivity|].
    apply add_methods_keeps. rewrite Hs1 in A.
    now apply (add_path_params_keeps _ _ _ A).
  - rewrite dict_get_set_other by assumption. eauto.
Qed.

(** After the iteration of a path that is not skipped, the key of each of
    its methods that is not skipped is in the path item. *)
Lemma path_step_adds dhs ds path
    (methods : list (string * PathDefinition Schema Authenticator Func))
    (s s' : list (string * dict)) method d :
  path_step ext self dhs ds s (path, methods) = Ok s' ->
  path_skipped self methods = false ->
  In (method, d) methods ->
  method_skipped self d = false ->
  exists pd,
    dict_get (fst (format_path_for_swagger ext path)) s' = Some pd
    /\ dict_mem (lower method) pd = true.
Proof.
  intros Hstep Hskip Hin Hvis. unfold path_step in Hstep.
  destruct (format_path_for_swagger ext path) as [spec_path path_args].
  rewrite Hskip in Hstep.
  destruct (add_path_params ext self path_args _) as [pd1|e]; [|discriminate].
  cbn [bind] in Hstep. injection Hstep as <-. simpl.
  rewrite dict_get_set_same. eexists. split; [reflexivity|].
  now apply add_methods_adds with (d := d).
Qed.

(** Every method that is not skipped, on a path that is not skipped, has
    an entry in the output. *)
Lemma get_paths_present
    (paths : list (string * list (string *
                PathDefinition Schema Authenticator Func)))
    dhs ds (path_definitions : list (string * dict)) path methods method d :
  _get_paths ext self paths dhs ds = Ok path_definitions ->
  In (path, methods) paths ->
  path_skipped self methods = false ->
  In (method, d) methods ->
  method_skipped self d = false ->
  exists pd v,
    dict_get (fst (format_path_for_swagger ext path)) path_definitions
    = Some pd
    /\ dict_get (lower method) pd = Some v.
Proof.
  unfold _get_paths. intros Hrun Hin Hskip Hm Hvis.
  assert (K : forall l s s',
             for_each (path_step ext self dhs ds) l s = Ok s' ->
             forall sp k,
               (exists pd, dict_get sp s = Some pd /\ dict_mem k pd = true) ->
               exists pd, dict_get sp s' = Some pd /\ dict_mem k pd = true).
  { induction l as [|x r IH]; intros s s' Hr sp k Hk; simpl in Hr.
    - now injection Hr as <-.
    - destruct (path_step ext self dhs ds s x) as [s1|e] eqn:E;
        [|discriminate].
      cbn [bind] in Hr. apply (IH s1 s' Hr).
      exact (path_step_keeps dhs ds x s sp k E Hk). }
  apply in_split in Hin. destruct Hin as (l1 & l2 & ->).
  rewrite for_each_app in Hrun.
  destruct (for_each (path_step ext self dhs ds) l1 []) as [s1|e];
    [|discriminate].
  cbn [bind for_each] in Hrun.
  destruct (path_step ext self dhs ds s1 (path, methods)) as [s2|e] eqn:E;
    [|discriminate].
  cbn [bind] in Hrun.
  pose proof (path_step_adds dhs ds path methods s1 method d E Hskip Hm Hvis)
    as Hk.
  destruct (K l2 s2 path_definitions Hrun _ _ Hk) as (pd & P1 & P2).
  unfold dict_mem in P2.
  destruct (dict_get (lower method) pd) as [v|] eqn:G; [|discriminate].
  now exists pd, v.
Qed.

Lemma path_step_hidden_method_removed dhs ds path
    (ma mb : list (string * PathDefinition Schema Authenticator Func))
    method d (s : list (string * dict)) :
  include_hidden self = false ->
  hidden d = true ->
  path_step ext self dhs ds s (path, ma ++ (method, d) :: mb)
  = path_step ext self dhs ds s (path, ma ++ mb).
Proof.
  intros Hinc Hd. unfold path_step.
  destruct (format_path_for_swagger ext path) as [spec_path path_args].
  assert (E1 : path_skipped self (ma ++ (method, d) :: mb)
               = path_skipped self (ma ++ mb)).
  { unfold path_skipped. rewrite !forallb_app. simpl. now rewrite Hd. }
  assert (E2 : forall pd,
             add_methods ext self dhs ds (ma ++ (method, d) :: mb) pd
             = add_methods ext self dhs ds (ma ++ mb) pd).
  { intros pd. unfold add_methods. rewrite !fold_left_app.
    cbn [fold_left fst snd].
    assert (Hm : method_skipped self d = true).
    { unfold method_skipped. now rewrite Hinc, Hd. }
    now rewrite Hm. }
  rewrite E1. destruct (path_skipped self (ma ++ mb)); [reflexivity|].
  destruct (add_path_params ext self path_args _); cbn [bind]; [|reflexivity].
  now rewrite E2.
Qed.

Lemma path_step_hidden_flag_unread dhs ds path
    (ma mb : list (string * PathDefinition Schema Authenticator Func))
    method d b (s : list (string * dict)) :
  include_hidden self = true ->
  path_step ext self dhs ds s (path, ma ++ (method, d) :: mb)
  = path_step ext self dhs ds s
      (path, ma ++ (method, with_hidden b d) :: mb).
Proof.
  intros Hinc.
  assert (Hm : forall d' : PathDefinition Schema Authenticator Func,
             method_skipped self d' = false).
  { intros d'. unfold method_skipped. now rewrite Hinc. }
  assert (Hp : forall ms : list (string *
                              PathDefinition Schema Authenticator Func),
             path_skipped self ms = false).
  { intros ms. unfold path_skipped. now rewrite Hinc. }
  assert (E : forall pd,
             add_methods ext self dhs ds (ma ++ (method, d) :: mb) pd
             = add_methods ext self dhs ds
                 (ma ++ (method, with_hidden b d) :: mb) pd).
  { intros pd. unfold add_methods. rewrite !fold_left_app.
    cbn [fold_left fst snd]. rewrite !Hm. reflexivity. }
  unfold path_step.
  destruct (format_path_for_swagger ext path) as [spec_path path_args].
  rewrite !Hp.
  destruct (add_path_params ext self path_args _); cbn [bind]; [|reflexivity].
  now rewrite E.
Qed.

(** C6: for a hidden endpoint of the registry.  When hidden endpoints are
    excluded, [_get_paths] returns what it returns for the registry
    without the endpoint.  When hidden endpoints are included, it returns
    what it returns for the registry in which the endpoint is not marked
    hidden, the operation of the endpoint is the one of its copy that is
    not hidden, and the path item of its spec path has an entry at its
    method. *)
Theorem C6_hidden_endpoint
    (registry : HandlerRegistry Schema Authenticator Func)
    l1 path ma method d mb l2 dhs ds :
  hidden d = true ->
  paths registry = l1 ++ (path, ma ++ (method, d) :: mb) :: l2 ->
  (include_hidden self = false ->
   _get_paths ext self (paths registry) dhs ds
   = _get_paths ext self (l1 ++ (path, ma ++ mb) :: l2) dhs ds)
  /\ (include_hidden self = true ->
      _get_paths ext self (paths registry) dhs ds
      = _get_paths ext self
          (l1 ++ (path, ma ++ (method, with_hidden false d) :: mb) :: l2)
          dhs ds
      /\ operation_of ext self d dhs ds
         = operation_of ext self (with_hidden false d) dhs ds
      /\ forall path_definitions,
           _get_paths ext self (paths registry) dhs ds = Ok path_definitions ->
           exists pd v,
             dict_get (fst (format_path_for_swagger ext path))
               path_definitions = Some pd
             /\ dict_get (lower method) pd = Some v).
Proof.
  intros Hd Hpaths. split; intros Hinc.
  - rewrite Hpaths. unfold _get_paths. apply for_each_replace.
    intros s. now apply path_step_hidden_method_removed.
  - repeat split.
    + rewrite Hpaths. unfold _get_paths. apply for_each_replace.
      intros s. now apply path_step_hidden_flag_unread.
    + intros pds Hrun.
      apply (@get_paths_present (paths registry) dhs ds pds path
               (ma ++ (method, d) :: mb) method d Hrun).
      * rewrite Hpaths. apply in_or_app. right. now left.
      * unfold path_skipped. now rewrite Hinc.
      * apply in_or_app. right. now left.
      * unfold method_skipped. now rewrite Hinc.
Qed.

(** ** Conflicting path parameters *)

(** The parameter that the comprehension builds for a placeholder. *)
Lemma path_params_of_member (path_args : list PathArgument)
    (path_params : list json) path_arg ty :
  path_params_of self path_args = Ok path_params ->
  In path_arg path_args ->
  dict_get (type path_arg) (flask_converters_to_swagger_types self) = Some ty ->
  In (JObj [ (sw.name, JStr (name path_arg));
             (sw.required, JBool true);
             (sw.in_, JStr sw.path);
             (sw.style, JStr sw.simple);
             (sw.schema, JObj [ (sw.type_, JStr ty) ]) ])
     path_params.
Proof.
  revert path_params. induction path_args as [|a r IH]; intros ps H Hin Hty;
    [destruct Hin|].
  simpl in H.
  destruct (dict_get (type a) (flask_converters_to_swagger_types self))
    as [ta|] eqn:T; [|discriminate].
  cbn [bind] in H.
  destruct (path_params_of self r) as [ps'|e]; [|discriminate].
  cbn [bind] in H. injection H as <-.
  destruct Hin as [->|Hin].
  - left. congruence.
  - right. now apply IH.
Qed.

(** The comprehension returns when every tag is in the table. *)
Lemma path_params_of_known (path_args : list PathArgument) :
  (forall path_arg, In path_arg path_args ->
     dict_get (type path_arg) (flask_converters_to_swagger_types self)
     <> None) ->
  exists path_params, path_params_of self path_args = Ok path_params.
Proof.
  induction path_args as [|a r IH]; intros H; simpl; [eauto|].
  destruct (dict_get (type a) (flask_converters_to_swagger_types self))
    as [ta|] eqn:T.
  - cbn [bind]. destruct IH as [ps ->].
    + intros b Hb. apply H. now right.
    + cbn [bind]. eauto.
  - exfalso. apply (H a); [now left | exact T].
Qed.

(** What the loop over the methods leaves at a key that held [v0]: [v0]
    itself, or the operation of a method of that name. *)
Lemma add_methods_get dhs ds
    (methods : list (string * PathDefinition Schema Authenticator Func))
    (path_definition : dict) k v0 :
  dict_get k path_definition = Some v0 ->
  exists v,
    dict_get k (add_methods ext self dhs ds methods path_definition) = Some v
    /\ (v = v0 \/ exists op, v = JObj op).
Proof.
  unfold add_methods. revert path_definition v0.
  induction methods as [|[m d] r IH]; intros pd v0 H; simpl.
  - eauto.
  - destruct (method_skipped self d); [now apply IH|].
    destruct (string_dec k (lower m)) as [->|Hne].
    + destruct (IH (dict_set (lower m)
                      (JObj (operation_of ext self d dhs ds)) pd)
                   (JObj (operation_of ext self d dhs ds)))
        as (v & V1 & V2); [apply dict_get_set_same|].
      exists v. split; [exact V1|]. right.
      destruct V2 as [->|V2]; eauto.
    + apply IH. now rewrite dict_get_set_other.
Qed.

(** The loop leaves a key alone when no method has that name. *)
Lemma add_methods_get_other dhs ds
    (methods : list (string * PathDefinition Schema Authenticator Func))
    (path_definition : dict) k :
  (forall method d, In (method, d) methods -> lower method <> k) ->
  dict_get k (add_methods ext self dhs ds methods path_definition)
  = dict_get k path_definition.
Proof.
  unfold add_methods. revert path_definition.
  induction methods as [|[m d] r IH]; intros pd H; simpl; [reflexivity|].
  rewrite IH by (intros m' d' Hin; apply (H m' d'); now right).
  destruct (method_skipped self d); [reflexivity|].
  apply dict_get_set_other. intros ->. apply (H m d); [now left | reflexivity].
Qed.

(** An iteration leaves the path item of another spec path alone. *)
Lemma path_step_other_path dhs ds path
    (methods : list (string * PathDefinition Schema Authenticator Func))
    (s s' : list (string * dict)) sp :
  path_step ext self dhs ds s (path, methods) = Ok s' ->
  path_skipped self methods = true
  \/ fst (format_path_for_swagger ext path) <> sp ->
  dict_get sp s' = dict_get sp s.
Proof.
  intros Hstep Hor. unfold path_step in Hstep.
  destruct (format_path_for_swagger ext path) as [spec_path path_args].
  simpl in Hor.
  destruct (path_skipped self methods).
  { now injection Hstep as <-. }
  destruct Hor as [Hor|Hne]; [discriminate|].
  destruct (add_path_params ext self path_args _) as [pd1|e]; [|discriminate].
  cbn [bind] in Hstep. injection Hstep as <-.
  rewrite dict_get_set_other by congruence.
  destruct (dict_mem spec_path s); [reflexivity|].
  apply dict_get_set_other. congruence.
Qed.

Lemma for_each_other_paths dhs ds
    (l : list (string * list (string *
             PathDefinition Schema Authenticator Func)))
    (s s' : list (string * dict)) sp :
  for_each (path_step ext self dhs ds) l s = Ok s' ->
  (forall path methods, In (path, methods) l ->
     path_skipped self methods = true
     \/ fst (format_path_for_swagger ext path) <> sp) ->
  dict_get sp s' = dict_get sp s.
Proof.
  revert s. induction l as [|[p ms] r IH]; intros s Hrun H;
    cbn [for_each] in Hrun.
  - now injection Hrun as <-.
  - destruct (path_step ext self dhs ds s (p, ms)) as [s1|e] eqn:E;
      [|discriminate].
    cbn [bind] in Hrun.
    rewrite (IH s1 Hrun) by (intros p' ms' Hin; apply H; now right).
    apply (@path_step_other_path dhs ds p ms s s1 sp E). apply H. now left.
Qed.

(** The iteration of a path with placeholders stores its parameter list;
    a method named like the key may then put its operation there. *)
Lemma path_step_stores_params dhs ds path
    (methods : list (string * PathDefinition Schema Authenticator Func))
    (s s' : list (string * dict)) path_arg :
  path_step ext self dhs ds s (path, methods) = Ok s' ->
  path_skipped self methods = false ->
  In path_arg (snd (format_path_for_swagger ext path)) ->
  exists pd v path_params,
    dict_get (fst (format_path_for_swagger ext path)) s' = Some pd
    /\ dict_get sw.parameters pd = Some v
    /\ path_params_of self (snd (format_path_for_swagger ext path))
       = Ok path_params
    /\ (v = JList path_params \/ exists op, v = JObj op).
Proof.
  intros Hstep Hskip Harg. unfold path_step in Hstep.
  destruct (format_path_for_swagger ext path) as [sp args].
  simpl in *. rewrite Hskip in Hstep.
  match type of Hstep with
  | context [add_path_params ext self args ?x] => set (pd0 := x) in Hstep
  end.
  unfold add_path_params in Hstep.
  destruct args as [|a r]; [destruct Harg|].
  destruct (path_params_of self (a :: r)) as [ps|e]; [|discriminate].
  cbn [bind] in Hstep.
  assert (Hpd1 : exists pd1,
             Ok pd1 = Ok (dict_set sw.parameters (JList ps) pd0)
             /\ Ok (dict_set sp (add_methods ext self dhs ds methods pd1)
                      (if dict_mem sp s then s else dict_set sp [] s))
                = Ok s').
  { destruct (dict_get sw.parameters pd0) as [u|].
    - destruct (verify_parameters_are_the_same ext u (JList ps));
        [|discriminate].
      cbn [bind] in Hstep. eauto.
    - cbn [bind] in Hstep. eauto. }
  destruct Hpd1 as (pd1 & [= ->] & [= <-]).
  rewrite dict_get_set_same.
  destruct (add_methods_get dhs ds methods
              (dict_set sw.parameters (JList ps) pd0) sw.parameters
              (dict_get_set_same sw.parameters (JList ps) pd0))
    as (v & V1 & V2).
  exists (add_methods ext self dhs ds methods
            (dict_set sw.parameters (JList ps) pd0)), v, ps.
  repeat split; auto.
Qed.

(** ** What the verification keeps *)

(** One iteration, with the path item read once. *)
Lemma path_step_unfold dhs ds path
    (methods : list (string * PathDefinition Schema Authenticator Func))
    (s : list (string * dict)) :
  path_step ext self dhs ds s (path, methods)
  = if path_skipped self methods then Ok s
    else
      path_definition <-
        add_path_params ext self (snd (format_path_for_swagger ext path))
          match dict_get (fst (format_path_for_swagger ext path)) s with
          | Some pd => pd
          | None => []
          end ;;
      Ok (dict_set (fst (format_path_for_swagger ext path))
            (add_methods ext self dhs ds methods path_definition)
            (if dict_mem (fst (format_path_for_swagger ext path)) s then s
             else dict_set (fst (format_path_for_swagger ext path)) [] s)).
Proof.
  unfold path_step.
  destruct (format_path_for_swagger ext path) as [sp args]. simpl.
  destruct (path_skipped self methods); [reflexivity|].
  unfold dict_mem. destruct (dict_get sp s) as [pd|] eqn:G.
  - now rewrite G.
  - now rewrite dict_get_set_same.
Qed.

Lemma add_path_params_unfold (path_args : list PathArgument)
    (path_definition : dict) :
  path_args <> [] ->
  add_path_params ext self path_args path_definition
  = path_params <- path_params_of self path_args ;;
    _ <- match dict_get sw.parameters path_definition with
         | Some stored =>
             verify_parameters_are_the_same ext stored (JList path_params)
         | None => Ok tt
         end ;;
    Ok (dict_set sw.parameters (JList path_params) path_definition).
Proof. destruct path_args; [congruence | reflexivity]. Qed.

(** The name and the type that the parameter of a placeholder declares. *)
Lemma path_parameter_declares n ty :
  parameter_name (JObj [ (sw.name, JStr n);
                         (sw.required, JBool true);
                         (sw.in_, JStr sw.path);
                         (sw.style, JStr sw.simple);
                         (sw.schema, JObj [ (sw.type_, JStr ty) ]) ])
  = Some n
  /\ parameter_type (JObj [ (sw.name, JStr n);
                            (sw.required, JBool true);
                            (sw.in_, JStr sw.path);
                            (sw.style, JStr sw.simple);
                            (sw.schema, JObj [ (sw.type_, JStr ty) ]) ])
     = Some ty.
Proof. split; reflexivity. Qed.

Lemma path_params_of_ok_known (path_args : list PathArgument)
    (path_params : list json) path_arg :
  path_params_of self path_args = Ok path_params ->
  In path_arg path_args ->
  exists ty,
    dict_get (type path_arg) (flask_converters_to_swagger_types self)
    = Some ty.
Proof.
  intros H Hin.
  destruct (dict_get (type path_arg) (flask_converters_to_swagger_types self))
    as [ty|] eqn:T; [eauto|].
  destruct (@path_params_of_unknown path_args path_arg Hin T) as [e He].
  congruence.
Qed.

Lemma path_params_of_nonempty a (r : list PathArgument)
    (path_params : list json) :
  path_params_of self (a :: r) = Ok path_params -> path_params <> [].
Proof.
  simpl.
  destruct (dict_get (type a) (flask_converters_to_swagger_types self));
    cbn [bind]; [|discriminate].
  destruct (path_params_of self r); cbn [bind]; [|discriminate].
  intros [= <-]. discriminate.
Qed.

Lemma path_params_of_named (path_args : list PathArgument)
    (path_params : list json) p :
  path_params_of self path_args = Ok path_params ->
  In p path_params ->
  parameter_name p <> None.
Proof.
  intros H Hin.
  destruct (@path_params_of_shape path_args path_params p H Hin)
    as (a & ty & _ & _ & ->).
  rewrite (proj1 (path_parameter_declares (name a) ty)). discriminate.
Qed.

Lemma NoDup_map_eq {A B : Type} (f : A -> B) (l : list A) x y :
  NoDup (map f l) -> In x l -> In y l -> f x = f y -> x = y.
Proof.
  induction l as [|z l IH]; simpl; intros Hnd Hx Hy E; [destruct Hx|].
  inversion Hnd as [|? ? Hnotin Hnd']; subst.
  destruct Hx as [->|Hx], Hy as [->|Hy]; auto.
  - exfalso. apply Hnotin. rewrite E. now apply in_map.
  - exfalso. apply Hnotin. rewrite <- E. now apply in_map.
Qed.

(** An iteration that returns keeps what the path item of a spec path
    declares of a parameter: the verification has found the parameter
    again in the list that replaces the stored one. *)
Lemma path_step_keeps_declaration dhs ds item
    (s s' : list (string * dict)) sp n ty :
  verify_contract (verify_parameters_are_the_same ext) ->
  path_step ext self dhs ds s item = Ok s' ->
  (exists pd v,
      dict_get sp s = Some pd
      /\ dict_get sw.parameters pd = Some v
      /\ declares n ty v) ->
  exists pd v,
    dict_get sp s' = Some pd
    /\ dict_get sw.parameters pd = Some v
    /\ declares n ty v.
Proof.
  intros (Hsame & Hobj & _) Hstep (pd & v & Hpd & Hv & Hd).
  destruct item as [path methods]. rewrite path_step_unfold in Hstep.
  destruct (path_skipped self methods).
  { injection Hstep as <-. eauto. }
  destruct (format_path_for_swagger ext path) as [sp' args]. simpl in Hstep.
  destruct (string_dec sp' sp) as [->|Hne].
  - rewrite Hpd in Hstep.
    destruct (add_path_params ext self args pd) as [pd1|e] eqn:A;
      cbn [bind] in Hstep; [|discriminate].
    injection Hstep as <-. rewrite dict_get_set_same.
    assert (H1 : exists v1,
               dict_get sw.parameters pd1 = Some v1 /\ declares n ty v1).
    { unfold add_path_params in A. destruct args as [|a r].
      - injection A as <-. eauto.
      - destruct (path_params_of self (a :: r)) as [ps|e] eqn:P;
          cbn [bind] in A; [|discriminate].
        rewrite Hv in A.
        destruct (verify_parameters_are_the_same ext v (JList ps))
          as [[]|e] eqn:V; cbn [bind] in A; [|discriminate].
        injection A as <-. rewrite dict_get_set_same.
        eexists. split; [reflexivity|].
        destruct Hd as [(l & p & -> & Hin & Hn & Ht)|[op ->]].
        + destruct (Hsame l ps p V Hin) as (q & Q1 & Q2 & Q3).
          left. exists ps, q. rewrite Q2, Q3. auto.
        + exfalso. apply (Hobj op ps); [|exact V].
          exact (@path_params_of_nonempty _ _ _ P). }
    destruct H1 as (v1 & V1 & D1).
    destruct (add_methods_get dhs ds methods pd1 sw.parameters V1)
      as (v2 & V2 & [->|[op ->]]).
    + eauto.
    + eexists _, (JObj op). split; [reflexivity|]. split; [exact V2|].
      right. eauto.
  - destruct (add_path_params ext self args _) as [pd1|e];
      cbn [bind] in Hstep; [|discriminate].
    injection Hstep as <-. exists pd, v. split; [|auto].
    rewrite dict_get_set_other by congruence.
    destruct (dict_mem sp' s); [exact Hpd|].
    rewrite dict_get_set_other by congruence. exact Hpd.
Qed.

Lemma for_each_keeps_declaration dhs ds
    (l : list (string * list (string *
             PathDefinition Schema Authenticator Func)))
    (s s' : list (string * dict)) sp n ty :
  verify_contract (verify_parameters_are_the_same ext) ->
  for_each (path_step ext self dhs ds) l s = Ok s' ->
  (exists pd v,
      dict_get sp s = Some pd
      /\ dict_get sw.parameters pd = Some v
      /\ declares n ty v) ->
  exists pd v,
    dict_get sp s' = Some pd
    /\ dict_get sw.parameters pd = Some v
    /\ declares n ty v.
Proof.
  intros Hc. revert s. induction l as [|x r IH]; intros s Hrun Hinv;
    cbn [for_each] in Hrun.
  - now injection Hrun as <-.
  - destruct (path_step ext self dhs ds s x) as [s1|e] eqn:E;
      cbn [bind] in Hrun; [|discriminate].
    apply (IH s1 Hrun).
    exact (@path_step_keeps_declaration dhs ds x s s1 sp n ty Hc E Hinv).
Qed.

(** What a path with placeholders leaves at its spec path declares each of
    its placeholders, with the type that the table gives for its tag. *)
Lemma path_step_declares dhs ds path
    (methods : list (string * PathDefinition Schema Authenticator Func))
    (s s' : list (string * dict)) path_arg :
  path_step ext self dhs ds s (path, methods) = Ok s' ->
  path_skipped self methods = false ->
  In path_arg (snd (format_path_for_swagger ext path)) ->
  exists ty pd v,
    dict_get (type path_arg) (flask_converters_to_swagger_types self)
    = Some ty
    /\ dict_get (fst (format_path_for_swagger ext path)) s' = Some pd
    /\ dict_get sw.parameters pd = Some v
    /\ declares (name path_arg) ty v.
Proof.
  intros Hstep Hskip Harg.
  destruct (@path_step_stores_params dhs ds path methods s s' path_arg
              Hstep Hskip Harg) as (pd & v & ps & P1 & P2 & P3 & P4).
  destruct (@path_params_of_ok_known _ _ _ P3 Harg) as [ty Hty].
  exists ty, pd, v. repeat split; auto.
  destruct P4 as [->|[op ->]]; [left|right; eauto].
  eexists ps, _. split; [reflexivity|].
  split; [exact (@path_params_of_member _ _ _ _ P3 Harg Hty)|].
  apply path_parameter_declares.
Qed.

(** ** Conflicting path parameters *)

(** The iteration of a path raises when the path item of its spec path
    declares, for the name of one of its placeholders, another type than
    the placeholder has, the names of its placeholders being distinct. *)
Lemma path_step_conflict_raises dhs ds path
    (methods : list (string * PathDefinition Schema Authenticator Func))
    (s : list (string * dict)) n ta path_arg tb :
  verify_contract (verify_parameters_are_the_same ext) ->
  (exists pd v,
      dict_get (fst (format_path_for_swagger ext path)) s = Some pd
      /\ dict_get sw.parameters pd = Some v
      /\ declares n ta v) ->
  path_skipped self methods = false ->
  In path_arg (snd (format_path_for_swagger ext path)) ->
  name path_arg = n ->
  dict_get (type path_arg) (flask_converters_to_swagger_types self) = Some tb ->
  ta <> tb ->
  NoDup (map name (snd (format_path_for_swagger ext path))) ->
  exists e, path_step ext self dhs ds s (path, methods) = Raise e.
Proof.
  intros (Hsame & Hobj & _) (pd & v & Hpd & Hv & Hd) Hskip Harg Hn Htb Hne Hnd.
  rewrite path_step_unfold, Hskip, Hpd.
  destruct (format_path_for_swagger ext path) as [sp args]. simpl in *.
  rewrite add_path_params_unfold by (intros ->; destruct Harg).
  destruct (path_params_of self args) as [ps|e] eqn:P; cbn [bind]; [|eauto].
  rewrite Hv.
  destruct (verify_parameters_are_the_same ext v (JList ps)) as [[]|e] eqn:V;
    cbn [bind]; [|eauto].
  exfalso. destruct Hd as [(l & p & -> & Hin & Hpn & Hpt)|[op ->]].
  - destruct (Hsame l ps p V Hin) as (q & Q1 & Q2 & Q3).
    destruct (@path_params_of_shape args ps q P Q1)
      as (a' & ty' & A1 & A2 & ->).
    rewrite Hpn, (proj1 (path_parameter_declares (name a') ty')) in Q2.
    rewrite Hpt, (proj2 (path_parameter_declares (name a') ty')) in Q3.
    injection Q2 as Q2. injection Q3 as Q3.
    assert (E : a' = path_arg).
    { apply (NoDup_map_eq name args); auto. congruence. }
    subst a'. congruence.
  - apply (Hobj op ps); [|exact V].
    destruct args as [|a r]; [destruct Harg|].
    exact (@path_params_of_nonempty _ _ _ P).
Qed.

(** Two paths of one spec path, neither skipped, whose placeholders of one
    name have different types, make the loop raise, whatever paths come
    between them. *)
Lemma conflict_raises dhs ds l1 pathA msA l2 pathB msB a b ta tb
    (s : list (string * dict)) :
  verify_contract (verify_parameters_are_the_same ext) ->
  path_skipped self msA = false ->
  path_skipped self msB = false ->
  fst (format_path_for_swagger ext pathA)
  = fst (format_path_for_swagger ext pathB) ->
  In a (snd (format_path_for_swagger ext pathA)) ->
  In b (snd (format_path_for_swagger ext pathB)) ->
  name a = name b ->
  dict_get (type a) (flask_converters_to_swagger_types self) = Some ta ->
  dict_get (type b) (flask_converters_to_swagger_types self) = Some tb ->
  ta <> tb ->
  NoDup (map name (snd (format_path_for_swagger ext pathB))) ->
  exists e,
    for_each (path_step ext self dhs ds)
      (l1 ++ (pathA, msA) :: l2 ++ [(pathB, msB)]) s = Raise e.
Proof.
  intros Hc HskA HskB Hsp Ha Hb Hn Hta Htb Hne Hnd.
  rewrite for_each_app.
  destruct (for_each (path_step ext self dhs ds) l1 s) as [s1|e];
    cbn [bind]; [|eauto].
  cbn [for_each].
  destruct (path_step ext self dhs ds s1 (pathA, msA)) as [sA|e] eqn:EA;
    cbn [bind]; [|eauto].
  rewrite for_each_app.
  destruct (for_each (path_step ext self dhs ds) l2 sA) as [s2|e] eqn:E2;
    cbn [bind]; [|eauto].
  cbn [for_each].
  destruct (@path_step_declares dhs ds pathA msA s1 sA a EA HskA Ha)
    as (ty & pd & v & T & P1 & P2 & P3).
  assert (ty = ta) by congruence. subst ty.
  assert (Hinv : exists pd v,
             dict_get (fst (format_path_for_swagger ext pathB)) s2 = Some pd
             /\ dict_get sw.parameters pd = Some v
             /\ declares (name a) ta v).
  { rewrite <- Hsp.
    apply (@for_each_keeps_declaration dhs ds l2 sA s2 _ _ _ Hc E2). eauto. }
  destruct (@path_step_conflict_raises dhs ds pathB msB s2 (name a) ta b tb
              Hc Hinv HskB Hb (eq_sym Hn) Htb Hne Hnd) as [e ->].
  cbn [bind]. eauto.
Qed.

(** With every converter tag in the table and no method named like the
    key of the parameter list, an iteration raises nothing but the
    parameter mismatch, and keeps lists of named parameters at that
    key. *)
Lemma path_step_benign dhs ds path
    (methods : list (string * PathDefinition Schema Authenticator Func))
    (s : list (string * dict)) :
  verify_contract (verify_parameters_are_the_same ext) ->
  (forall sp pd v, dict_get sp s = Some pd ->
     dict_get sw.parameters pd = Some v ->
     exists l, v = JList l /\ forall p, In p l -> parameter_name p <> None) ->
  (path_skipped self methods = false ->
   forall path_arg, In path_arg (snd (format_path_for_swagger ext path)) ->
     dict_get (type path_arg) (flask_converters_to_swagger_types self)
     <> None) ->
  (forall method d, In (method, d) methods -> lower method <> sw.parameters) ->
  (forall e, path_step ext self dhs ds s (path, methods) = Raise e ->
             e = ParameterMismatch)
  /\ (forall s', path_step ext self dhs ds s (path, methods) = Ok s' ->
        forall sp pd v, dict_get sp s' = Some pd ->
          dict_get sw.parameters pd = Some v ->
          exists l, v = JList l
                    /\ forall p, In p l -> parameter_name p <> None).
Proof.
  intros (_ & _ & Hmis) Hinv Htags Hmeth. unfold path_step.
  destruct (format_path_for_swagger ext path) as [spec_path args].
  simpl in Htags.
  destruct (path_skipped self methods).
  { split; [discriminate|]. now intros s' [= <-]. }
  specialize (Htags eq_refl).
  set (s1 := if dict_mem spec_path s then s else dict_set spec_path [] s).
  assert (Hinv1 : forall sp pd v, dict_get sp s1 = Some pd ->
            dict_get sw.parameters pd = Some v ->
            exists l, v = JList l
                      /\ forall p, In p l -> parameter_name p <> None).
  { intros sp pd v H1 H2. subst s1.
    destruct (dict_mem spec_path s); [eauto|].
    destruct (string_dec sp spec_path) as [->|Hne'].
    - rewrite dict_get_set_same in H1. injection H1 as <-. discriminate.
    - rewrite dict_get_set_other in H1 by assumption. eauto. }
  set (pd0 := match dict_get spec_path s1 with Some pd => pd | None => [] end).
  assert (Hpd0 : forall v, dict_get sw.parameters pd0 = Some v ->
                   exists l, v = JList l
                             /\ forall p, In p l -> parameter_name p <> None).
  { intros v H. subst pd0.
    destruct (dict_get spec_path s1) as [pd|] eqn:G; [eauto|discriminate]. }
  assert (A : (forall e, add_path_params ext self args pd0 = Raise e ->
                         e = ParameterMismatch)
              /\ (forall pd1, add_path_params ext self args pd0 = Ok pd1 ->
                    forall v, dict_get sw.parameters pd1 = Some v ->
                      exists l, v = JList l
                                /\ forall p, In p l ->
                                             parameter_name p <> None)).
  { unfold add_path_params. destruct args as [|a r].
    - split; [discriminate|]. intros pd1 [= <-]. exact Hpd0.
    - destruct (@path_params_of_known (a :: r) Htags) as [ps Hps].
      rewrite Hps. cbn [bind].
      assert (Hset : forall pd1 : dict,
                Ok (dict_set sw.parameters (JList ps) pd0) = Ok pd1 ->
                forall v, dict_get sw.parameters pd1 = Some v ->
                  exists l, v = JList l
                            /\ forall p, In p l -> parameter_name p <> None).
      { intros pd1 [= <-] v. rewrite dict_get_set_same.
        intros [= <-]. exists ps. split; [reflexivity|].
        intros p Hp. exact (@path_params_of_named _ _ p Hps Hp). }
      destruct (dict_get sw.parameters pd0) as [stored|] eqn:G.
      + destruct (Hpd0 stored eq_refl) as (l & -> & Hl).
        destruct (verify_parameters_are_the_same ext (JList l) (JList ps))
          as [u|e'] eqn:V; cbn [bind].
        * split; [discriminate | exact Hset].
        * split; [|discriminate]. intros e [= <-].
          apply (Hmis l ps e' ); [|exact V].
          intros p [Hp|Hp]; [now apply Hl|].
          exact (@path_params_of_named _ _ p Hps Hp).
      + cbn [bind]. split; [discriminate | exact Hset]. }
  destruct A as [A1 A2].
  destruct (add_path_params ext self args pd0) as [pd1|e'] eqn:E; cbn [bind].
  - split; [discriminate|]. intros s' [= <-] sp pd v H1 H2.
    destruct (string_dec sp spec_path) as [->|Hne'].
    + rewrite dict_get_set_same in H1. injection H1 as <-.
      rewrite add_methods_get_other in H2 by exact Hmeth.
      exact (A2 pd1 eq_refl v H2).
    + rewrite dict_get_set_other in H1 by assumption. eauto.
  - split; [|discriminate]. intros e [= <-]. now apply A1.
Qed.

Lemma for_each_benign dhs ds
    (l : list (string * list (string *
             PathDefinition Schema Authenticator Func)))
    (s : list (string * dict)) e :
  verify_contract (verify_parameters_are_the_same ext) ->
  for_each (path_step ext self dhs ds) l s = Raise e ->
  (forall sp pd v, dict_get sp s = Some pd ->
     dict_get sw.parameters pd = Some v ->
     exists l, v = JList l /\ forall p, In p l -> parameter_name p <> None) ->
  (forall path methods path_arg,
     In (path, methods) l -> path_skipped self methods = false ->
     In path_arg (snd (format_path_for_swagger ext path)) ->
     dict_get (type path_arg) (flask_converters_to_swagger_types self)
     <> None) ->
  (forall path methods method d,
     In (path, methods) l -> In (method, d) methods ->
     lower method <> sw.parameters) ->
  e = ParameterMismatch.
Proof.
  intros Hc. revert s.
  induction l as [|[p ms] r IH]; intros s Hrun Hinv Htags Hmeth;
    cbn [for_each] in Hrun; [discriminate|].
  destruct (@path_step_benign dhs ds p ms s Hc Hinv) as [B1 B2].
  - intros Hs arg Harg. apply (Htags p ms arg); auto. now left.
  - intros m d Hm. apply (Hmeth p ms m d); auto. now left.
  - destruct (path_step ext self dhs ds s (p, ms)) as [s1|e'];
      cbn [bind] in Hrun.
    + apply (IH s1 Hrun (B2 s1 eq_refl)).
      * intros p' ms' arg Hin. apply (Htags p' ms' arg). now right.
      * intros p' ms' m d Hin. apply (Hmeth p' ms' m d). now right.
    + injection Hrun as <-. now apply B1.
Qed.

(** C1 (amended): two path templates of the registry that are both not
    skipped, format to the same spec path and declare, for a placeholder
    of the same name, converter tags that the lookup table maps to
    different types, make [generate] raise and return no document, the
    placeholders of the second template having distinct names and the
    verification of the parameters being what its contract says.  The
    error is the parameter mismatch when the components are built, every
    converter tag of a path that is not skipped up to the second template
    is in the table, and no method up to there is named like the key of
    the parameter list. *)
Theorem C1_conflicting_parameter_types
    (registry : HandlerRegistry Schema Authenticator Func)
    l1 pathA msA l2 pathB msB l3 a b ta tb host sort_keys :
  verify_contract (verify_parameters_are_the_same ext) ->
  paths registry = l1 ++ (pathA, msA) :: l2 ++ (pathB, msB) :: l3 ->
  path_skipped self msA = false ->
  path_skipped self msB = false ->
  fst (format_path_for_swagger ext pathA)
  = fst (format_path_for_swagger ext pathB) ->
  In a (snd (format_path_for_swagger ext pathA)) ->
  In b (snd (format_path_for_swagger ext pathB)) ->
  name a = name b ->
  dict_get (type a) (flask_converters_to_swagger_types self) = Some ta ->
  dict_get (type b) (flask_converters_to_swagger_types self) = Some tb ->
  ta <> tb ->
  NoDup (map name (snd (format_path_for_swagger ext pathB))) ->
  (exists e, generate ext self registry host sort_keys = Raise e)
  /\ ((exists components, _get_components ext self registry = Ok components) ->
      (forall path methods path_arg,
         In (path, methods) (l1 ++ (pathA, msA) :: l2 ++ [(pathB, msB)]) ->
         path_skipped self methods = false ->
         In path_arg (snd (format_path_for_swagger ext path)) ->
         dict_get (type path_arg) (flask_converters_to_swagger_types self)
         <> None) ->
      (forall path methods method d,
         In (path, methods) (l1 ++ (pathA, msA) :: l2 ++ [(pathB, msB)]) ->
         In (method, d) methods ->
         lower method <> sw.parameters) ->
      generate ext self registry host sort_keys = Raise ParameterMismatch).
Proof.
  intros Hc Hpaths HskA HskB Hsp Ha Hb Hn Hta Htb Hne Hnd.
  set (dhs := default_headers_schema registry).
  set (ds := Some (default_security_of ext registry)).
  destruct (@conflict_raises dhs ds l1 pathA msA l2 pathB msB a b ta tb []
              Hc HskA HskB Hsp Ha Hb Hn Hta Htb Hne Hnd) as [e He].
  assert (Hrun : _get_paths ext self (paths registry) dhs ds = Raise e).
  { unfold _get_paths. rewrite Hpaths.
    replace (l1 ++ (pathA, msA) :: l2 ++ (pathB, msB) :: l3)
      with ((l1 ++ (pathA, msA) :: l2 ++ [(pathB, msB)]) ++ l3).
    - rewrite for_each_app, He. reflexivity.
    - rewrite <- app_assoc. simpl. rewrite <- app_assoc. reflexivity. }
  split.
  - unfold generate.
    destruct (_get_components ext self registry) as [components|e'];
      cbn [bind]; [|eauto].
    fold dhs ds. rewrite Hrun. cbn [bind]. eauto.
  - intros [components Hcomp] Htags Hmeth.
    assert (E : e = ParameterMismatch).
    { apply (@for_each_benign dhs ds _ [] e Hc He); auto. discriminate. }
    subst e. unfold generate. rewrite Hcomp. cbn [bind].
    fold dhs ds. rewrite Hrun. reflexivity.
Qed.


(** ** The keys of the output *)

(** An assignment keeps the keys and their order; a new key goes last. *)
Lemma dict_set_keys {V : Type} k (v : V) (d : list (string * V)) :
  map fst (dict_set k v d)
  = if dict_mem k d then map fst d else map fst d ++ [k].
Proof.
  unfold dict_mem. induction d as [|[k' v'] r IH]; simpl; [reflexivity|].
  destruct (String.eqb k k') eqn:E; simpl.
  - apply String.eqb_eq in E. now subst.
  - rewrite IH. now destruct (dict_get k r).
Qed.

Lemma dict_mem_in_keys {V : Type} k (d : list (string * V)) :
  dict_mem k d = true <-> In k (map fst d).
Proof.
  unfold dict_mem. induction d as [|[k' v'] r IH]; simpl.
  - split; [discriminate | intros []].
  - destruct (String.eqb k k') eqn:E.
    + apply String.eqb_eq in E. subst. split; auto.
    + apply String.eqb_neq in E. rewrite IH. split; [auto|].
      intros [H|H]; [congruence | exact H].
Qed.

(** An assignment never makes a key occur twice. *)
Lemma dict_set_nodup {V : Type} k (v : V) (d : list (string * V)) :
  NoDup (map fst d) -> NoDup (map fst (dict_set k v d)).
Proof.
  intros H. rewrite dict_set_keys.
  destruct (dict_mem k d) eqn:M; [exact H|].
  apply NoDup_app; [exact H | repeat constructor; intros [] |].
  intros x Hx [<-|[]]. apply dict_mem_in_keys in Hx. congruence.
Qed.

Lemma add_methods_nodup dhs ds
    (methods : list (string * PathDefinition Schema Authenticator Func))
    (path_definition : dict) :
  NoDup (map fst path_definition) ->
  NoDup (map fst (add_methods ext self dhs ds methods path_definition)).
Proof.
  unfold add_methods. revert path_definition.
  induction methods as [|[m d] r IH]; intros pd H; simpl; [exact H|].
  apply IH. destruct (method_skipped self d); [exact H|].
  now apply dict_set_nodup.
Qed.

Lemma add_path_params_nodup (path_args : list PathArgument)
    (path_definition path_definition' : dict) :
  add_path_params ext self path_args path_definition = Ok path_definition' ->
  NoDup (map fst path_definition) ->
  NoDup (map fst path_definition').
Proof.
  unfold add_path_params. destruct path_args as [|a r].
  - now intros [= <-].
  - destruct (path_params_of self (a :: r)) as [ps|e]; [|discriminate].
    cbn [bind].
    destruct (match dict_get sw.parameters path_definition with
              | Some stored =>
                  verify_parameters_are_the_same ext stored (JList ps)
              | None => Ok tt
              end) as [u|e]; [|discriminate].
    cbn [bind]. intros [= <-] H. now apply dict_set_nodup.
Qed.

Lemma dict_set_keys_fresh {V : Type} k (v : V) (d : list (string * V)) :
  dict_mem k d = false -> map fst (dict_set k v d) = map fst d ++ [k].
Proof. intros H. now rewrite dict_set_keys, H. Qed.

(** What one iteration does to the keys of [path_definitions]: nothing
    for a skipped path, and otherwise the spec path is added when it is
    not there. *)
Lemma path_step_keys dhs ds path
    (methods : list (string * PathDefinition Schema Authenticator Func))
    (s s' : list (string * dict)) :
  path_step ext self dhs ds s (path, methods) = Ok s' ->
  map fst s'
  = if path_skipped self methods then map fst s
    else if dict_mem (fst (format_path_for_swagger ext path)) s
         then map fst s
         else map fst s ++ [fst (format_path_for_swagger ext path)].
Proof.
  intros Hstep. unfold path_step in Hstep.
  destruct (format_path_for_swagger ext path) as [sp args]. simpl.
  destruct (path_skipped self methods).
  { now injection Hstep as <-. }
  destruct (add_path_params ext self args _) as [pd1|e]; [|discriminate].
  cbn [bind] in Hstep. injection Hstep as <-.
  rewrite dict_set_keys.
  destruct (dict_mem sp s) eqn:M.
  - now rewrite M.
  - unfold dict_mem at 1. rewrite dict_get_set_same.
    now apply dict_set_keys_fresh.
Qed.


Lemma for_each_keys dhs ds
    (l : list (string * list (string *
             PathDefinition Schema Authenticator Func)))
    (s s' : list (string * dict)) :
  for_each (path_step ext self dhs ds) l s = Ok s' ->
  NoDup (map fst s) ->
  NoDup (map fst s')
  /\ forall sp,
       In sp (map fst s')
       <-> In sp (map fst s)
           \/ exists path methods,
                In (path, methods) l
                /\ path_skipped self methods = false
                /\ fst (format_path_for_swagger ext path) = sp.
Proof.
  revert s. induction l as [|[p ms] r IH]; intros s Hrun Hnd;
    cbn [for_each] in Hrun.
  - injection Hrun as <-. split; [exact Hnd|].
    intros sp. split; [now left|]. intros [H|(p & ms & [] & _)]. exact H.
  - destruct (path_step ext self dhs ds s (p, ms)) as [s1|e] eqn:E;
      [|discriminate].
    cbn [bind] in Hrun.
    pose proof (@path_step_keys dhs ds p ms s s1 E) as K.
    assert (Hnd1 : NoDup (map fst s1)).
    { rewrite K. destruct (path_skipped self ms); [exact Hnd|].
      destruct (dict_mem _ s) eqn:M; [exact Hnd|].
      apply NoDup_app; [exact Hnd | repeat constructor; intros [] |].
      intros x Hx [<-|[]]. apply dict_mem_in_keys in Hx. congruence. }
    destruct (IH s1 Hrun Hnd1) as [N1 N2]. split; [exact N1|].
    intros sp. rewrite N2, K. clear N1 N2 IH. split.
    + intros [H|(p' & ms' & H1 & H2 & H3)].
      * destruct (path_skipped self ms) eqn:S; [now left|].
        destruct (dict_mem _ s); [now left|].
        apply in_app_or in H. destruct H as [H|[<-|[]]]; [now left|].
        right. exists p, ms. repeat split; auto. now left.
      * right. exists p', ms'. repeat split; auto. now right.
    + intros [H|(p' & ms' & [[= <- <-]|H1] & H2 & H3)].
      * left. destruct (path_skipped self ms); [exact H|].
        destruct (dict_mem _ s); [exact H|]. apply in_or_app. now left.
      * left. rewrite H2. subst sp.
        destruct (dict_mem _ s) eqn:M.
        -- now apply dict_mem_in_keys.
        -- apply in_or_app. right. now left.
      * right. now exists p', ms'.
Qed.

(** The keys of the dictionary that [_get_paths] returns are the spec
    paths of the paths that are not skipped, each one once: two templates
    of one spec path share one path item. *)
Theorem get_paths_keys
    (paths : list (string * list (string *
                PathDefinition Schema Authenticator Func)))
    dhs ds (path_definitions : list (string * dict)) :
  _get_paths ext self paths dhs ds = Ok path_definitions ->
  NoDup (map fst path_definitions)
  /\ forall sp,
       In sp (map fst path_definitions)
       <-> exists path methods,
             In (path, methods) paths
             /\ path_skipped self methods = false
             /\ fst (format_path_for_swagger ext path) = sp.
Proof.
  unfold _get_paths. intros Hrun.
  destruct (@for_each_keys dhs ds paths [] path_definitions Hrun)
    as [N1 N2]; [constructor|].
  split; [exact N1|]. intros sp. rewrite N2. split; [|now right].
  intros [[]|H]. exact H.
Qed.

Lemma path_step_items_nodup dhs ds item (s s' : list (string * dict)) :
  path_step ext self dhs ds s item = Ok s' ->
  (forall sp pd, In (sp, pd) s -> NoDup (map fst pd)) ->
  forall sp pd, In (sp, pd) s' -> NoDup (map fst pd).
Proof.
  intros Hstep Hinv. unfold path_step in Hstep.
  destruct item as [path methods].
  destruct (format_path_for_swagger ext path) as [spec_path path_args].
  destruct (path_skipped self methods).
  { injection Hstep as <-. exact Hinv. }
  set (s1 := if dict_mem spec_path s then s else dict_set spec_path [] s) in *.
  assert (Hinv1 : forall sp pd, In (sp, pd) s1 -> NoDup (map fst pd)).
  { intros sp pd H1. subst s1.
    destruct (dict_mem spec_path s); [eauto|].
    apply in_dict_set in H1. destruct H1 as [[-> ->]|H1]; [constructor|eauto]. }
  set (pd0 := match dict_get spec_path s1 with Some pd => pd | None => [] end)
    in *.
  assert (Hpd0 : NoDup (map fst pd0)).
  { subst pd0. destruct (dict_get spec_path s1) as [pd|] eqn:G; [|constructor].
    apply dict_get_in in G. eauto. }
  destruct (add_path_params ext self path_args pd0) as [pd1|e] eqn:A;
    [|discriminate].
  cbn [bind] in Hstep. injection Hstep as <-.
  intros sp pd H1.
  apply in_dict_set in H1. destruct H1 as [[-> ->]|H1]; [|eauto].
  apply add_methods_nodup. exact (add_path_params_nodup _ _ A Hpd0).
Qed.

(** No path item of the output holds a key twice: the operation of a
    method replaces the entry that was at its key. *)
Theorem get_paths_items_nodup
    (paths : list (string * list (string *
                PathDefinition Schema Authenticator Func)))
    dhs ds (path_definitions : list (string * dict)) sp pd :
  _get_paths ext self paths dhs ds = Ok path_definitions ->
  In (sp, pd) path_definitions ->
  NoDup (map fst pd).
Proof.
  unfold _get_paths. intros Hrun.
  assert (G : forall l s s',
             for_each (path_step ext self dhs ds) l s = Ok s' ->
             (forall sp pd, In (sp, pd) s -> NoDup (map fst pd)) ->
             forall sp pd, In (sp, pd) s' -> NoDup (map fst pd)).
  { induction l as [|x r IH]; intros s s' Hr Hinv; cbn [for_each] in Hr.
    - now injection Hr as <-.
    - destruct (path_step ext self dhs ds s x) as [s1|e] eqn:E;
        [|discriminate].
      cbn [bind] in Hr. apply (IH s1 s' Hr).
      exact (path_step_items_nodup dhs ds x s E Hinv). }
  apply (G paths [] path_definitions Hrun). intros sp' pd' [].
Qed.


(** ** The operation object *)

(** The keys of an operation, in the order of the assignments:
    [operationId] and [responses] always, then each of the other six when
    the code assigned it; no key occurs twice and there is no other key. *)
Theorem operation_keys (d : PathDefinition Schema Authenticator Func) dhs ds :
  let op := operation_of ext self d dhs ds in
  map fst op
  = [ sw.operation_id; sw.responses ]
    ++ filter (fun k => dict_mem k op)
         [ sw.description; sw.parameters; sw.request_body; sw.security;
           sw.tags; sw.summary ].
Proof.
  cbv zeta. unfold operation_of.
  match goal with
  | |- context [dict_set_opt sw.summary ?o] => generalize o
  end.
  match goal with
  | |- context [dict_set_opt sw.tags ?o] => generalize o
  end.
  match goal with
  | |- context [dict_set_opt sw.security ?o] => generalize o
  end.
  match goal with
  | |- context [dict_set_opt sw.request_body ?o] => generalize o
  end.
  match goal with
  | |- context [dict_set_opt sw.parameters ?o] => generalize o
  end.
  match goal with
  | |- context [dict_set_opt sw.description ?o] => generalize o
  end.
  match goal with
  | |- context [(sw.operation_id, ?v)] => generalize v
  end.
  match goal with
  | |- context [(sw.responses, ?v)] => generalize v
  end.
  intros v2 v1 [v1'|] [v2'|] [v3|] [v4|] [v5|] [v6|]; reflexivity.
Qed.

(** An optional key of an operation never holds an empty value: no empty
    description or summary, no empty list of parameters or of tags.  (The
    [security] key is the one that may hold the empty list.) *)
Theorem operation_no_empty_value
    (d : PathDefinition Schema Authenticator Func) dhs ds :
  let op := operation_of ext self d dhs ds in
  dict_get sw.description op <> Some (JStr "")
  /\ dict_get sw.summary op <> Some (JStr "")
  /\ dict_get sw.parameters op <> Some (JList [])
  /\ dict_get sw.tags op <> Some (JList [])
  /\ dict_get sw.request_body op <> Some (JObj []).
Proof.
  cbv zeta. repeat split; read_operation.
  - destruct (func_doc ext (func d)) as [[|c r]|]; discriminate.
  - destruct (summary d) as [[|c r]|]; discriminate.
  - destruct (parameters_definition_of ext self d dhs); discriminate.
  - destruct (tags d); discriminate.
  - unfold request_body_of. destruct (request_body_schema d); discriminate.
Qed.

(** The title of the handler function is the operation id of an endpoint
    without a name, and of one whose name is the empty string. *)
Theorem operation_id_fallback
    (d : PathDefinition Schema Authenticator Func) dhs ds :
  endpoint d = None \/ endpoint d = Some "" ->
  dict_get sw.operation_id (operation_of ext self d dhs ds)
  = Some (JStr (get_swagger_title ext (func d))).
Proof.
  intros H. read_operation. cbn [dict_get].
  rewrite String.eqb_refl. now destruct H as [-> | ->].
Qed.

(** ** The defaults of the registry *)

(** The loop over the authenticators does not read the default security
    when no authenticator is the sentinel. *)
Lemma security_of_no_sentinel (auths : list (or_default Authenticator))
    ds ds' :
  (forall a, In a auths -> a <> USE_DEFAULT) ->
  security_of ext auths ds = security_of ext auths ds'.
Proof.
  unfold security_of. generalize (false, @nil json) as st.
  induction auths as [|a r IH]; intros st H; simpl; [reflexivity|].
  destruct a as [|x].
  - destruct (H USE_DEFAULT); [now left | reflexivity].
  - apply IH. intros b Hb. apply H. now right.
Qed.

(** An endpoint that gives its own headers schema, or none, is built
    without the default headers schema of the registry; an endpoint none
    of whose authenticators is the sentinel is built without the default
    security. *)
Theorem operation_ignores_unused_defaults
    (d : PathDefinition Schema Authenticator Func) dhs dhs' ds ds' :
  (forall h, headers_schema d = Explicit h ->
     operation_of ext self d dhs ds = operation_of ext self d dhs' ds)
  /\ ((forall a, In a (authenticators d) -> a <> USE_DEFAULT) ->
      operation_of ext self d dhs ds = operation_of ext self d dhs ds').
Proof.
  split.
  - intros h Hh. unfold operation_of, parameters_definition_of.
    now rewrite Hh.
  - intros Ha. unfold operation_of, operation_security_of.
    destruct (authenticators d) as [|a r] eqn:E; [reflexivity|].
    now rewrite (security_of_no_sentinel (a :: r) ds ds' Ha).
Qed.

(** Without a default security the sentinel adds nothing, as with the
    empty one. *)
Lemma security_of_none (auths : list (or_default Authenticator)) :
  security_of ext auths None = security_of ext auths (Some []).
Proof.
  unfold security_of. generalize (false, @nil json) as st.
  induction auths as [|a r IH]; intros st; simpl; [reflexivity|].
  destruct a as [|x]; [|apply IH].
  rewrite app_nil_r. rewrite IH. now destruct st.
Qed.

Lemma add_methods_ext dhs ds dhs' ds'
    (methods : list (string * PathDefinition Schema Authenticator Func))
    (path_definition : dict) :
  (forall method d, In (method, d) methods ->
     method_skipped self d = false ->
     operation_of ext self d dhs ds = operation_of ext self d dhs' ds') ->
  add_methods ext self dhs ds methods path_definition
  = add_methods ext self dhs' ds' methods path_definition.
Proof.
  unfold add_methods. revert path_definition.
  induction methods as [|[m d] r IH]; intros pd H; simpl; [reflexivity|].
  destruct (method_skipped self d) eqn:S.
  - apply IH. intros m' d' Hin. apply (H m' d'). now right.
  - rewrite (H m d (or_introl eq_refl) S).
    apply IH. intros m' d' Hin. apply (H m' d'). now right.
Qed.

(** [_get_paths] called without a default security, as its signature
    allows, returns what it returns with the empty default security. *)
Theorem get_paths_default_security_none
    (paths : list (string * list (string *
                PathDefinition Schema Authenticator Func))) dhs :
  _get_paths ext self paths dhs None = _get_paths ext self paths dhs (Some []).
Proof.
  unfold _get_paths. generalize (@nil (string * dict)) as s.
  induction paths as [|[p ms] r IH]; intros s; cbn [for_each];
    [reflexivity|].
  assert (E : path_step ext self dhs None s (p, ms)
              = path_step ext self dhs (Some []) s (p, ms)).
  { unfold path_step.
    destruct (format_path_for_swagger ext p) as [sp args].
    destruct (path_skipped self ms); [reflexivity|].
    destruct (add_path_params ext self args _); cbn [bind]; [|reflexivity].
    f_equal. f_equal. apply add_methods_ext. intros m d _ _.
    unfold operation_of, operation_security_of.
    destruct (authenticators d) as [|au l]; [reflexivity|].
    now rewrite security_of_none. }
  rewrite E.
  destruct (path_step ext self dhs (Some []) s (p, ms)); cbn [bind];
    [apply IH | reflexivity].
Qed.


(** ** Which declaration an entry of the output comes from *)

Lemma lower_ascii_idempotent c : lower_ascii (lower_ascii c) = lower_ascii c.
Proof. destruct c as [[] [] [] [] [] [] [] []]; reflexivity. Qed.

Lemma lower_idempotent s : lower (lower s) = lower s.
Proof.
  induction s as [|c r IH]; simpl; [reflexivity|].
  now rewrite lower_ascii_idempotent, IH.
Qed.

(** An entry of a path item is the list of the path parameters, at the key
    [parameters], or an operation object at a key in lower case. *)
Theorem get_paths_entry_shape
    (paths : list (string * list (string *
                PathDefinition Schema Authenticator Func)))
    dhs ds (path_definitions : list (string * dict)) sp pd k v :
  _get_paths ext self paths dhs ds = Ok path_definitions ->
  In (sp, pd) path_definitions ->
  In (k, v) pd ->
  (k = sw.parameters /\ exists path_params, v = JList path_params)
  \/ (lower k = k /\ exists op, v = JObj op).
Proof.
  intros Hrun Hsp Hk.
  destruct (@get_paths_entries paths dhs ds path_definitions Hrun
              sp pd k v Hsp Hk)
    as [(p & ms & ps & _ & _ & _ & _ & -> & ->)
       |(p & ms & m & d & _ & _ & _ & _ & _ & -> & ->)].
  - left. eauto.
  - right. split; [apply lower_idempotent | eauto].
Qed.

(** The loop over the methods leaves a key alone when every method of that
    name is skipped. *)
Lemma add_methods_get_unwritten dhs ds
    (methods : list (string * PathDefinition Schema Authenticator Func))
    (path_definition : dict) k :
  (forall method d, In (method, d) methods ->
     method_skipped self d = true \/ lower method <> k) ->
  dict_get k (add_methods ext self dhs ds methods path_definition)
  = dict_get k path_definition.
Proof.
  unfold add_methods. revert path_definition.
  induction methods as [|[m d] r IH]; intros pd H; simpl; [reflexivity|].
  rewrite IH by (intros m' d' Hin; apply (H m' d'); now right).
  destruct (method_skipped self d) eqn:S; [reflexivity|].
  apply dict_get_set_other. intros ->.
  destruct (H m d) as [H1|H1]; [now left | congruence | now apply H1].
Qed.

(** The operation at the key of a method is the one of the last method of
    that name that is not skipped. *)
Lemma add_methods_last dhs ds
    (m1 m2 : list (string * PathDefinition Schema Authenticator Func))
    method d (path_definition : dict) :
  method_skipped self d = false ->
  (forall method' d', In (method', d') m2 ->
     method_skipped self d' = true \/ lower method' <> lower method) ->
  dict_get (lower method)
    (add_methods ext self dhs ds (m1 ++ (method, d) :: m2) path_definition)
  = Some (JObj (operation_of ext self d dhs ds)).
Proof.
  intros Hvis Hlater.
  pose proof (add_methods_get_unwritten dhs ds m2) as U.
  unfold add_methods in *. rewrite fold_left_app. cbn [fold_left fst snd].
  rewrite Hvis, (U _ (lower method) Hlater). apply dict_get_set_same.
Qed.

Lemma method_visible_path_visible
    (m1 m2 : list (string * PathDefinition Schema Authenticator Func))
    method d :
  method_skipped self d = false ->
  path_skipped self (m1 ++ (method, d) :: m2) = false.
Proof.
  unfold method_skipped, path_skipped. rewrite forallb_app. simpl.
  destruct (include_hidden self); [reflexivity|]. simpl. intros ->.
  simpl. apply andb_false_r.
Qed.

(** Later declarations win.  The operation found at a spec path and a
    method in lower case is the one of the last endpoint that is not
    skipped among those of that spec path and method: whatever earlier
    templates of the spec path and earlier methods of the name declared is
    replaced. *)
Theorem get_paths_last_writer
    (paths : list (string * list (string *
                PathDefinition Schema Authenticator Func)))
    dhs ds (path_definitions : list (string * dict))
    l1 path m1 method d m2 l2 :
  _get_paths ext self paths dhs ds = Ok path_definitions ->
  paths = l1 ++ (path, m1 ++ (method, d) :: m2) :: l2 ->
  method_skipped self d = false ->
  (forall method' d', In (method', d') m2 ->
     method_skipped self d' = true \/ lower method' <> lower method) ->
  (forall path' methods', In (path', methods') l2 ->
     path_skipped self methods' = true
     \/ fst (format_path_for_swagger ext path')
        <> fst (format_path_for_swagger ext path)) ->
  exists pd,
    dict_get (fst (format_path_for_swagger ext path)) path_definitions
    = Some pd
    /\ dict_get (lower method) pd
       = Some (JObj (operation_of ext self d dhs ds)).
Proof.
  unfold _get_paths. intros Hrun -> Hvis Hm2 Hl2.
  rewrite for_each_app in Hrun.
  destruct (for_each (path_step ext self dhs ds) l1 []) as [s1|e];
    [|discriminate].
  cbn [bind for_each] in Hrun.
  destruct (path_step ext self dhs ds s1 (path, m1 ++ (method, d) :: m2))
    as [s2|e] eqn:E; [|discriminate].
  cbn [bind] in Hrun.
  rewrite (@for_each_other_paths dhs ds l2 s2 path_definitions _ Hrun Hl2).
  clear Hrun Hl2. unfold path_step in E.
  destruct (format_path_for_swagger ext path) as [sp args]. simpl.
  rewrite (method_visible_path_visible m1 m2 method d Hvis) in E.
  destruct (add_path_params ext self args _) as [pd1|e]; [|discriminate].
  cbn [bind] in E. injection E as <-.
  rewrite dict_get_set_same. eexists. split; [reflexivity|].
  now apply add_methods_last.
Qed.


(** ** When [_get_paths] returns *)

(** An iteration returns when the converter tags of the path are in the
    table and the path, if it has placeholders, finds no path item at its
    spec path: there is nothing then to verify its parameters against. *)
Lemma path_step_returns dhs ds path
    (methods : list (string * PathDefinition Schema Authenticator Func))
    (s : list (string * dict)) :
  (forall path_arg,
     In path_arg (snd (format_path_for_swagger ext path)) ->
     dict_get (type path_arg) (flask_converters_to_swagger_types self)
     <> None) ->
  (snd (format_path_for_swagger ext path) <> [] ->
   dict_mem (fst (format_path_for_swagger ext path)) s = false) ->
  exists s', path_step ext self dhs ds s (path, methods) = Ok s'.
Proof.
  intros Htags Hfresh. unfold path_step.
  destruct (format_path_for_swagger ext path) as [sp args]. simpl in *.
  destruct (path_skipped self methods); [eauto|].
  destruct args as [|a r].
  - cbn [add_path_params bind]. eauto.
  - rewrite Hfresh by discriminate. rewrite dict_get_set_same.
    unfold add_path_params.
    destruct (path_params_of_known (a :: r) Htags) as [ps ->].
    cbn [bind dict_get]. eauto.
Qed.

(** [_get_paths] returns a dictionary when every converter tag of the
    paths that are not skipped is in the lookup table and no such path
    with placeholders comes after another one of the same spec path. *)
Theorem get_paths_returns
    (paths : list (string * list (string *
                PathDefinition Schema Authenticator Func))) dhs ds :
  (forall path methods path_arg,
     In (path, methods) paths ->
     path_skipped self methods = false ->
     In path_arg (snd (format_path_for_swagger ext path)) ->
     dict_get (type path_arg) (flask_converters_to_swagger_types self)
     <> None) ->
  (forall l1 path methods l2 path' methods',
     paths = l1 ++ (path, methods) :: l2 ->
     path_skipped self methods = false ->
     snd (format_path_for_swagger ext path) <> [] ->
     In (path', methods') l1 ->
     path_skipped self methods' = true
     \/ fst (format_path_for_swagger ext path')
        <> fst (format_path_for_swagger ext path)) ->
  exists path_definitions,
    _get_paths ext self paths dhs ds = Ok path_definitions.
Proof.
  unfold _get_paths.
  induction paths as [|[path methods] l IH] using rev_ind;
    intros Htags Hfirst; [simpl; eauto|].
  destruct IH as [s Hs].
  { intros p ms a Hin. apply (Htags p ms a). apply in_or_app. now left. }
  { intros l1 p ms l2 p' ms' ->. apply (Hfirst l1 p ms (l2 ++ [(path, methods)])).
    now rewrite <- app_assoc. }
  rewrite for_each_app, Hs. cbn [bind for_each].
  destruct (path_skipped self methods) eqn:Hskip.
  { rewrite path_step_skipped by assumption. cbn [bind]. eauto. }
  destruct (@path_step_returns dhs ds path methods s) as [s' ->].
  - intros a. apply (Htags path methods a); [|exact Hskip].
    apply in_or_app. right. now left.
  - intros Hargs.
    destruct (dict_mem (fst (format_path_for_swagger ext path)) s) eqn:M;
      [|reflexivity].
    apply dict_mem_in_keys in M.
    destruct (@for_each_keys dhs ds l [] s Hs) as [_ K]; [constructor|].
    apply K in M. destruct M as [[]|(p & ms & M1 & M2 & M3)].
    destruct (Hfirst l path methods [] p ms eq_refl Hskip Hargs M1)
      as [H|H]; congruence.
  - cbn [bind]. eauto.
Qed.

(** ** The keys of a flattened parameter *)

Lemma set_if_not_none_opt k v (d : dict) :
  set_if_not_none k v d
  = dict_set_opt k match v with JNull => None | _ => Some v end d.
Proof. now destruct v. Qed.

(** A flattened parameter carries the name of its field and the location
    it is built for; its keys are [name], [in], [schema] and [required],
    then those of the three hints that it carries, in the order of the
    assignments, and no key occurs twice. *)
Theorem parameter_keys (converter : Field -> dict) in_ prop field :
  let parameter := parameter_of_field ext converter in_ prop field in
  dict_get sw.name parameter = Some (JStr prop)
  /\ dict_get sw.in_ parameter = Some (JStr in_)
  /\ map fst parameter
     = [ sw.name; sw.in_; sw.schema; sw.required ]
       ++ filter (fun k => dict_mem k parameter)
            [ sw.explode; sw.description; sw.style ].
Proof.
  cbv zeta. rewrite parameter_of_field_eq, !set_if_not_none_opt.
  match goal with
  | |- context [dict_set_opt sw.style ?o] => generalize o
  end.
  match goal with
  | |- context [dict_set_opt sw.description ?o] => generalize o
  end.
  match goal with
  | |- context [dict_set_opt sw.explode ?o] => generalize o
  end.
  match goal with
  | |- context [(sw.schema, ?v)] => generalize v
  end.
  match goal with
  | |- context [(sw.required, ?v)] => generalize v
  end.
  intros v4 v3 [v5|] [v6|] [v7|]; repeat split; reflexivity.
Qed.

Lemma parameter_of_field_in (converter : Field -> dict) in_ prop field :
  dict_get sw.in_ (parameter_of_field ext converter in_ prop field)
  = Some (JStr in_).
Proof.
  rewrite parameter_of_field_eq.
  now rewrite !dict_get_set_if_not_none_other by (vm_compute; discriminate).
Qed.

(** The parameters of an operation are the query-string parameters
    followed by the header parameters: each one is an object located in
    [query] or in [header], none is a path parameter. *)
Theorem operation_parameter_locations
    (d : PathDefinition Schema Authenticator Func) dhs :
  exists query headers,
    parameters_definition_of ext self d dhs = query ++ headers
    /\ Forall (fun p => exists parameter,
                 p = JObj parameter
                 /\ dict_get sw.in_ parameter = Some (JStr sw.query)) query
    /\ Forall (fun p => exists parameter,
                 p = JObj parameter
                 /\ dict_get sw.in_ parameter = Some (JStr sw.header)) headers.
Proof.
  assert (G : forall schema converter in_,
             Forall (fun p => exists parameter,
                       p = JObj parameter
                       /\ dict_get sw.in_ parameter = Some (JStr in_))
               (_convert_schema_to_list_of_parameters ext schema converter
                  in_)).
  { intros schema converter in_. unfold _convert_schema_to_list_of_parameters.
    apply Forall_forall. intros p Hp. apply in_map_iff in Hp.
    destruct Hp as ([prop field] & <- & _). eexists. split; [reflexivity|].
    apply parameter_of_field_in. }
  unfold parameters_definition_of. do 2 eexists. split; [reflexivity|].
  split.
  - destruct (query_string_schema d); [apply G | constructor].
  - destruct (headers_schema d) as [|[h|]]; [destruct dhs| |];
      try apply G; constructor.
Qed.


(** ** The keys of the responses *)

Lemma responses_loop_keys (l : list (Z * option Schema)) (acc : dict) :
  NoDup (map fst acc) ->
  let r := fold_left
             (fun acc cs =>
                dict_set (str (fst cs)) (JObj (response_entry ext (snd cs)))
                         acc)
             l acc in
  NoDup (map fst r)
  /\ (exists later, map fst r = map fst acc ++ later)
  /\ forall k,
       In k (map fst r)
       <-> In k (map fst acc)
           \/ exists code schema, In (code, schema) l /\ k = str code.
Proof.
  cbv zeta. revert acc. induction l as [|[c sc] l IH]; intros acc Hnd; simpl.
  - split; [exact Hnd|]. split; [exists []; now rewrite app_nil_r|].
    intros k. split; [now left|]. intros [H|(? & ? & [] & _)]. exact H.
  - set (acc1 := dict_set (str c) (JObj (response_entry ext sc)) acc).
    destruct (IH acc1 (dict_set_nodup _ _ _ Hnd)) as (N1 & [t N2] & N3).
    assert (K : map fst acc1
                = if dict_mem (str c) acc then map fst acc
                  else map fst acc ++ [str c]).
    { apply dict_set_keys. }
    split; [exact N1|]. split.
    + rewrite N2, K. destruct (dict_mem (str c) acc); [eauto|].
      rewrite <- app_assoc. eauto.
    + intros k. rewrite N3, K. split.
      * intros [H|(c' & s' & H1 & H2)].
        -- destruct (dict_mem (str c) acc); [now left|].
           apply in_app_or in H. destruct H as [H|[<-|[]]]; [now left|].
           right. exists c, sc. split; [now left | reflexivity].
        -- right. exists c', s'. split; [now right | exact H2].
      * intros [H|(c' & s' & [[= <- <-]|H1] & ->)].
        -- left. destruct (dict_mem (str c) acc); [exact H|].
           apply in_or_app. now left.
        -- left. destruct (dict_mem (str c) acc) eqn:M.
           ++ now apply dict_mem_in_keys.
           ++ apply in_or_app. right. now left.
        -- right. eauto.
Qed.

(** The responses of an operation start with the key [default]; the other
    keys are the declared status codes, printed, each one once, also for a
    status code that is declared several times. *)
Theorem responses_keys (d : PathDefinition Schema Authenticator Func) :
  let responses := responses_definition_of ext self d in
  hd_error (map fst responses) = Some sw.default
  /\ NoDup (map fst responses)
  /\ forall k,
       In k (map fst responses)
       <-> k = sw.default
           \/ exists code schema,
                In (code, schema) (response_body_schema d) /\ k = str code.
Proof.
  cbv zeta. rewrite responses_definition_of_eq.
  destruct (responses_loop_keys (response_body_schema d)
              [ (sw.default,
                 JObj (_get_response_definition ext
                         (default_response_schema self))) ])
    as (N1 & [t N2] & N3).
  { repeat constructor. intros []. }
  split; [now rewrite N2|]. split; [exact N1|].
  intros k. rewrite N3. simpl. intuition.
Qed.

(** ** The components *)

(** [d.update(other)] leaves a key that [other] does not hold, and gives
    a key that [other] holds the value it has there. *)
Lemma dict_get_update_other {V : Type} k (d other : list (string * V)) :
  dict_get k other = None ->
  dict_get k (dict_update d other) = dict_get k d.
Proof.
  unfold dict_update. revert d.
  induction other as [|[k' v'] r IH]; intros d H; simpl in *; [reflexivity|].
  destruct (String.eqb k k') eqn:E; [discriminate|].
  rewrite (IH _ H). apply dict_get_set_other.
  now apply String.eqb_neq.
Qed.

Lemma dict_get_update_same {V : Type} k v (d other : list (string * V)) :
  NoDup (map fst other) ->
  dict_get k other = Some v ->
  dict_get k (dict_update d other) = Some v.
Proof.
  unfold dict_update. revert d.
  induction other as [|[k' v'] r IH]; intros d Hnd H; simpl in *;
    [discriminate|].
  inversion Hnd as [|? ? Hnotin Hnd']; subst.
  destruct (String.eqb k k') eqn:E.
  - apply String.eqb_eq in E. subst k'. injection H as ->.
    assert (Hr : dict_get k r = None).
    { destruct (dict_get k r) eqn:G; [|reflexivity].
      exfalso. apply Hnotin. apply dict_mem_in_keys.
      unfold dict_mem. now rewrite G. }
    pose proof (dict_get_update_other k (dict_set k v d) r Hr) as U.
    unfold dict_update in U. rewrite U. apply dict_get_set_same.
  - now apply IH.
Qed.

(** The components hold at most the keys [schemas] and [securitySchemes],
    in this order, and neither with an empty object; they fail only when
    the collection of the schema definitions fails. *)
Theorem components_keys (registry : HandlerRegistry Schema Authenticator Func) :
  match _get_components ext self registry with
  | Ok components =>
      map fst components
      = filter (fun k => dict_mem k components)
          [ sw.schemas; sw.security_schemes ]
      /\ dict_get sw.schemas components <> Some (JObj [])
      /\ dict_get sw.security_schemes components <> Some (JObj [])
      /\ exists schemas,
           get_unique_schema_definitions ext registry _ref_base
             (default_response_schema self) (_response_converter self)
             (_request_body_converter self) = Ok schemas
  | Raise e =>
      get_unique_schema_definitions ext registry _ref_base
        (default_response_schema self) (_response_converter self)
        (_request_body_converter self) = Raise e
  end.
Proof.
  unfold _get_components.
  destruct (get_unique_schema_definitions ext registry _ref_base
              (default_response_schema self) (_response_converter self)
              (_request_body_converter self)) as [schemas|e];
    cbn [bind]; [|reflexivity].
  match goal with
  | |- context [fold_left ?f ?l ?a] => generalize (fold_left f l a)
  end.
  intros schemes.
  destruct schemas as [|s1 sr], schemes as [|t1 tr];
    (repeat split; [discriminate .. | eauto]).
Qed.

(** A security scheme of the components is the one of the last
    authenticator that defines a scheme of that name: the scheme that an
    earlier authenticator gave the name is overwritten. *)
Theorem security_schemes_last_wins
    (registry : HandlerRegistry Schema Authenticator Func)
    (components : dict) l1 a l2 k v :
  _get_components ext self registry = Ok components ->
  get_unique_authenticators ext registry = l1 ++ a :: l2 ->
  NoDup (map fst (get_security_schemes ext a)) ->
  dict_get k (get_security_schemes ext a) = Some v ->
  (forall b, In b l2 -> dict_get k (get_security_schemes ext b) = None) ->
  exists security_schemes,
    dict_get sw.security_schemes components = Some (JObj security_schemes)
    /\ dict_get k security_schemes = Some v.
Proof.
  unfold _get_components. intros Hc Hl Hnd Hk Hl2.
  destruct (get_unique_schema_definitions ext registry _ref_base
              (default_response_schema self) (_response_converter self)
              (_request_body_converter self)) as [schemas|e];
    cbn [bind] in Hc; [|discriminate].
  rewrite Hl in Hc. rewrite fold_left_app in Hc. cbn [fold_left] in Hc.
  match type of Hc with
  | context [fold_left ?f l2 (dict_update _ _)] => set (body := f) in *
  end.
  assert (G : forall l acc,
             (forall b, In b l -> dict_get k (get_security_schemes ext b)
                                  = None) ->
             dict_get k (fold_left body l acc) = dict_get k acc).
  { induction l as [|b l IH]; intros acc H; simpl; [reflexivity|].
    rewrite IH by (intros c Hc'; apply H; now right).
    subst body. cbv beta. apply dict_get_update_other. apply H. now left. }
  assert (Hv : dict_get k
                 (fold_left body l2
                    (dict_update (fold_left body l1 [])
                       (get_security_schemes ext a)))
               = Some v).
  { rewrite (G l2 _ Hl2). now apply dict_get_update_same. }
  destruct (fold_left body l2
              (dict_update (fold_left body l1 [])
                 (get_security_schemes ext a)))
    as [|t1 tr] eqn:F; [discriminate|].
  injection Hc as <-. rewrite dict_get_set_same. eauto.
Qed.


(** ** The document *)

(** The document that [generate] returns without sorting: the keys
    [openapi], [info], [paths] and [components] first, with the paths and
    the components that [_get_paths] and [_get_components] returned, then
    those of [security], [tags] and [servers] that were assigned, in this
    order; none of the three holds an empty list. *)
Theorem generate_top_level
    (registry : HandlerRegistry Schema Authenticator Func)
    (host : option string) (doc : json) :
  generate ext self registry host false = Ok doc ->
  exists swagger components path_definitions,
    doc = JObj swagger
    /\ _get_components ext self registry = Ok components
    /\ _get_paths ext self (paths registry) (default_headers_schema registry)
         (Some (default_security_of ext registry)) = Ok path_definitions
    /\ map fst swagger
       = [ sw.openapi; sw.info; sw.paths; sw.components ]
         ++ filter (fun k => dict_mem k swagger)
              [ sw.security; sw.tags; sw.servers ]
    /\ dict_get sw.openapi swagger = Some (get_open_api_version ext)
    /\ dict_get sw.info swagger = Some (_get_info ext)
    /\ dict_get sw.paths swagger = Some (paths_json path_definitions)
    /\ dict_get sw.components swagger = Some (JObj components)
    /\ dict_get sw.security swagger <> Some (JList [])
    /\ dict_get sw.tags swagger <> Some (JList [])
    /\ dict_get sw.servers swagger <> Some (JList []).
Proof.
  unfold generate. intros H.
  destruct (_get_components ext self registry) as [components|e];
    cbn [bind] in H; [|discriminate].
  destruct (_get_paths ext self (paths registry)
              (default_headers_schema registry)
              (Some (default_security_of ext registry))) as [pds|e];
    cbn [bind] in H; [|discriminate].
  injection H as <-.
  exists (swagger_of ext self registry host components pds), components, pds.
  do 3 (split; [reflexivity|]).
  unfold swagger_of.
  destruct (default_security_of ext registry) as [|r1 rl],
           (self_tags self) as [[|t1 tl]|],
           (servers self) as [[|s1 sl]|],
           host as [[|c h]|];
    repeat split; try reflexivity; intros E; cbv in E; discriminate E.
Qed.

(** The values of the optional keys of the document.  [security] holds
    the default security, when there is some; [tags] holds the tags of
    the generator, when there are some; [servers] holds the servers of the
    generator followed by the one of the host: a host that is the empty
    string adds none, and without any server there is no [servers] key. *)
Theorem generate_optional_keys
    (registry : HandlerRegistry Schema Authenticator Func)
    (host : option string) (doc : json) :
  generate ext self registry host false = Ok doc ->
  exists swagger,
    doc = JObj swagger
    /\ dict_get sw.security swagger
       = match default_security_of ext registry with
         | [] => None
         | default_security => Some (JList default_security)
         end
    /\ dict_get sw.tags swagger
       = match self_tags self with
         | None | Some [] => None
         | Some all => Some (JList (map (tag_as_swagger ext) all))
         end
    /\ dict_get sw.servers swagger
       = match
           match servers self with Some l => l | None => [] end
           ++ match host with
              | Some (String c h) => [ Server_of_url ext (String c h) ]
              | _ => []
              end
         with
         | [] => None
         | all => Some (JList (map (server_as_swagger ext) all))
         end.
Proof.
  unfold generate. intros H.
  destruct (_get_components ext self registry) as [components|e];
    cbn [bind] in H; [|discriminate].
  destruct (_get_paths ext self (paths registry)
              (default_headers_schema registry)
              (Some (default_security_of ext registry))) as [pds|e];
    cbn [bind] in H; [|discriminate].
  injection H as <-.
  exists (swagger_of ext self registry host components pds).
  split; [reflexivity|].
  unfold swagger_of.
  destruct (default_security_of ext registry) as [|r1 rl],
           (self_tags self) as [[|t1 tl]|],
           (servers self) as [[|s1 sl]|],
           host as [[|c h]|];
    rewrite ?app_nil_r; repeat split; reflexivity.
Qed.

(** [generate] raises what the collection of the schema definitions
    raises, and otherwise what [_get_paths] raises; nothing else makes it
    raise, so neither the host nor the sorting does. *)
Theorem generate_raises
    (registry : HandlerRegistry Schema Authenticator Func)
    (host : option string) (sort_keys : bool) e :
  generate ext self registry host sort_keys = Raise e
  <-> get_unique_schema_definitions ext registry _ref_base
        (default_response_schema self) (_response_converter self)
        (_request_body_converter self) = Raise e
      \/ ((exists schemas,
             get_unique_schema_definitions ext registry _ref_base
               (default_response_schema self) (_response_converter self)
               (_request_body_converter self) = Ok schemas)
          /\ _get_paths ext self (paths registry)
               (default_headers_schema registry)
               (Some (default_security_of ext registry)) = Raise e).
Proof.
  unfold generate, _get_components.
  destruct (get_unique_schema_definitions ext registry _ref_base
              (default_response_schema self) (_response_converter self)
              (_request_body_converter self)) as [schemas|e1];
    cbn [bind].
  - destruct (_get_paths ext self (paths registry)
                (default_headers_schema registry)
                (Some (default_security_of ext registry))) as [pds|e2];
      cbn [bind].
    + split; [discriminate|]. intros [H|[_ H]]; discriminate.
    + split.
      * intros [= ->]. right. eauto.
      * intros [H|[_ H]]; [discriminate|]. now injection H as ->.
  - split.
    + intros [= ->]. now left.
    + intros [H|[[s H] _]]; [|discriminate]. now injection H as ->.
Qed.


(** [generate_swagger] returns the conversion to the canonical key order
    of the document that [generate] returns without sorting, and raises
    what it raises. *)
Theorem generate_swagger_of_unsorted
    (registry : HandlerRegistry Schema Authenticator Func)
    (host : option string) :
  generate_swagger ext self registry host
  = doc <- generate ext self registry host false ;;
    Ok (recursively_convert_dict_to_ordered_dict doc).
Proof.
  unfold generate_swagger, generate.
  destruct (_get_components ext self registry); cbn [bind]; [|reflexivity].
  destruct (_get_paths ext self (paths registry)
              (default_headers_schema registry)
              (Some (default_security_of ext registry)));
    reflexivity.
Qed.

(** ** The path parameters *)

(** The comprehension over the placeholders returns one parameter per
    placeholder, in order and of its name, when every converter tag is in
    the table; otherwise it raises for the first tag that is not. *)
Theorem path_params_of_result (path_args : list PathArgument) :
  match path_params_of self path_args with
  | Ok path_params =>
      map parameter_name path_params
      = map (fun path_arg => Some (name path_arg)) path_args
      /\ forall path_arg,
           In path_arg path_args ->
           dict_get (type path_arg) (flask_converters_to_swagger_types self)
           <> None
  | Raise e =>
      exists known path_arg rest,
        path_args = known ++ path_arg :: rest
        /\ (forall a, In a known ->
              dict_get (type a) (flask_converters_to_swagger_types self)
              <> None)
        /\ dict_get (type path_arg) (flask_converters_to_swagger_types self)
           = None
        /\ e = UnknownConverter (type path_arg)
  end.
Proof.
  induction path_args as [|a r IH]; simpl.
  - split; [reflexivity | intros ? []].
  - destruct (dict_get (type a) (flask_converters_to_swagger_types self))
      as [ty|] eqn:T; cbn [bind].
    + destruct (path_params_of self r) as [ps|e]; cbn [bind].
      * destruct IH as [I1 I2]. split.
        -- simpl. now rewrite I1.
        -- intros b [<-|Hb]; [congruence | now apply I2].
      * destruct IH as (known & b & rest & -> & I1 & I2 & ->).
        exists (a :: known), b, rest. repeat split; auto.
        intros c [<-|Hc]; [congruence | now apply I1].
    + exists [], a, r. repeat split; auto.
Qed.

(** What the storing of the path parameters leaves. *)
Lemma add_path_params_stores (path_args : list PathArgument)
    (path_definition path_definition' : dict) :
  add_path_params ext self path_args path_definition = Ok path_definition' ->
  path_args <> [] ->
  exists path_params,
    path_params_of self path_args = Ok path_params
    /\ path_definition'
       = dict_set sw.parameters (JList path_params) path_definition.
Proof.
  unfold add_path_params. destruct path_args as [|a r]; [congruence|].
  destruct (path_params_of self (a :: r)) as [ps|e]; [|discriminate].
  cbn [bind].
  destruct (match dict_get sw.parameters path_definition with
            | Some stored =>
                verify_parameters_are_the_same ext stored (JList ps)
            | None => Ok tt
            end) as [u|e]; [|discriminate].
  cbn [bind]. intros [= <-] _. eauto.
Qed.

(** The parameter list found at a spec path is the one of the last path
    that is not skipped among those of that spec path with placeholders,
    unless one of its methods is named like the key [parameters]: the
    operation of such a method takes the place of the list. *)
Theorem get_paths_parameters
    (paths : list (string * list (string *
                PathDefinition Schema Authenticator Func)))
    dhs ds (path_definitions : list (string * dict)) l1 path methods l2 :
  _get_paths ext self paths dhs ds = Ok path_definitions ->
  paths = l1 ++ (path, methods) :: l2 ->
  path_skipped self methods = false ->
  snd (format_path_for_swagger ext path) <> [] ->
  (forall method d, In (method, d) methods ->
     method_skipped self d = true \/ lower method <> sw.parameters) ->
  (forall path' methods', In (path', methods') l2 ->
     path_skipped self methods' = true
     \/ fst (format_path_for_swagger ext path')
        <> fst (format_path_for_swagger ext path)) ->
  exists pd path_params,
    dict_get (fst (format_path_for_swagger ext path)) path_definitions
    = Some pd
    /\ path_params_of self (snd (format_path_for_swagger ext path))
       = Ok path_params
    /\ dict_get sw.parameters pd = Some (JList path_params).
Proof.
  unfold _get_paths. intros Hrun -> Hskip Hargs Hms Hl2.
  rewrite for_each_app in Hrun.
  destruct (for_each (path_step ext self dhs ds) l1 []) as [s1|e];
    [|discriminate].
  cbn [bind for_each] in Hrun.
  destruct (path_step ext self dhs ds s1 (path, methods)) as [s2|e] eqn:E;
    [|discriminate].
  cbn [bind] in Hrun.
  rewrite (@for_each_other_paths dhs ds l2 s2 path_definitions _ Hrun Hl2).
  clear Hrun Hl2. unfold path_step in E.
  destruct (format_path_for_swagger ext path) as [sp args]. simpl in *.
  rewrite Hskip in E.
  destruct (add_path_params ext self args _) as [pd1|e] eqn:A; [|discriminate].
  cbn [bind] in E. injection E as <-.
  destruct (@add_path_params_stores _ _ _ A Hargs) as (ps & P1 & ->).
  rewrite dict_get_set_same. eexists _, ps. split; [reflexivity|].
  split; [exact P1|].
  rewrite (@add_methods_get_unwritten dhs ds methods _ sw.parameters Hms).
  apply dict_get_set_same.
Qed.

(** ** What makes [_get_paths] raise *)

(** A loop raises when there is a first item at which the body raises. *)
Lemma for_each_raise_split {A S} (body : S -> A -> result S) l s e :
  for_each body l s = Raise e
  <-> exists l1 x l2 s1,
        l = l1 ++ x :: l2
        /\ for_each body l1 s = Ok s1
        /\ body s1 x = Raise e.
Proof.
  split.
  - revert s. induction l as [|y r IH]; intros s H; cbn [for_each] in H;
      [discriminate|].
    destruct (body s y) as [s'|e'] eqn:E; cbn [bind] in H.
    + destruct (IH s' H) as (l1 & x & l2 & s1 & -> & H1 & H2).
      exists (y :: l1), x, l2, s1. split; [reflexivity|].
      split; [|exact H2]. cbn [for_each]. rewrite E. exact H1.
    + injection H as ->. exists [], y, r, s. auto.
  - intros (l1 & x & l2 & s1 & -> & H1 & H2).
    rewrite for_each_app, H1. cbn [bind for_each]. now rewrite H2.
Qed.

(** The iteration of a path raises at the comprehension over the
    placeholders, or at the verification of the parameters against the
    value stored for the spec path. *)
Lemma path_step_raise dhs ds path
    (methods : list (string * PathDefinition Schema Authenticator Func))
    (s : list (string * dict)) e :
  path_step ext self dhs ds s (path, methods) = Raise e
  <-> path_skipped self methods = false
      /\ (path_params_of self (snd (format_path_for_swagger ext path))
          = Raise e
          \/ exists path_params pd stored,
               snd (format_path_for_swagger ext path) <> []
               /\ path_params_of self (snd (format_path_for_swagger ext path))
                  = Ok path_params
               /\ dict_get (fst (format_path_for_swagger ext path)) s
                  = Some pd
               /\ dict_get sw.parameters pd = Some stored
               /\ verify_parameters_are_the_same ext stored
                    (JList path_params) = Raise e).
Proof.
  rewrite path_step_unfold.
  destruct (format_path_for_swagger ext path) as [sp args]. simpl.
  destruct (path_skipped self methods).
  { split; [discriminate | intros [H _]; discriminate]. }
  destruct args as [|a r].
  { cbn [add_path_params bind]. split; [discriminate|].
    intros [_ [H|(ps & pd & st & H & _)]]; [discriminate | congruence]. }
  rewrite add_path_params_unfold by discriminate.
  destruct (path_params_of self (a :: r)) as [ps|e'] eqn:P; cbn [bind].
  - destruct (dict_get sp s) as [pd|] eqn:G.
    + destruct (dict_get sw.parameters pd) as [stored|] eqn:Gp.
      * destruct (verify_parameters_are_the_same ext stored (JList ps))
          as [u|e'] eqn:V; cbn [bind].
        -- split; [discriminate|].
           intros [_ [H|(ps' & pd' & st' & _ & [= <-] & [= <-] & H1 & H2)]];
             [discriminate|].
           rewrite Gp in H1. injection H1 as <-. congruence.
        -- split.
           ++ intros [= <-]. split; [reflexivity|]. right.
              exists ps, pd, stored. repeat split; auto. discriminate.
           ++ intros [_ [H|(ps' & pd' & st' & _ & [= <-] & [= <-] & H1 & H2)]];
                [discriminate|].
              rewrite Gp in H1. injection H1 as <-. congruence.
      * cbn [bind]. split; [discriminate|].
        intros [_ [H|(ps' & pd' & st' & _ & _ & [= <-] & H1 & _)]];
          [discriminate | congruence].
    + cbn [dict_get bind]. split; [discriminate|].
      intros [_ [H|(ps' & pd' & st' & _ & _ & H0 & _)]]; discriminate.
  - split.
    + intros [= <-]. split; [reflexivity|]. now left.
    + intros [_ [[= <-]|(ps' & pd' & st' & _ & H & _)]];
        [reflexivity | discriminate].
Qed.

(** [_get_paths] raises an error exactly when the paths before some path
    of the registry give a dictionary, that path is not skipped, and
    either the comprehension over its placeholders raises the error (the
    lookup of a converter tag), or its spec path has a path item in that
    dictionary whose value at the key [parameters] makes the verification
    against the parameters of the path raise the error. *)
Theorem get_paths_raises
    (paths : list (string * list (string *
                PathDefinition Schema Authenticator Func))) dhs ds e :
  _get_paths ext self paths dhs ds = Raise e
  <-> exists l1 path methods l2 (s : list (string * dict)),
        paths = l1 ++ (path, methods) :: l2
        /\ _get_paths ext self l1 dhs ds = Ok s
        /\ path_skipped self methods = false
        /\ (path_params_of self (snd (format_path_for_swagger ext path))
            = Raise e
            \/ exists path_params pd stored,
                 snd (format_path_for_swagger ext path) <> []
                 /\ path_params_of self
                      (snd (format_path_for_swagger ext path))
                    = Ok path_params
                 /\ dict_get (fst (format_path_for_swagger ext path)) s
                    = Some pd
                 /\ dict_get sw.parameters pd = Some stored
                 /\ verify_parameters_are_the_same ext stored
                      (JList path_params) = Raise e).
Proof.
  unfold _get_paths. rewrite for_each_raise_split. split.
  - intros (l1 & [path methods] & l2 & s & -> & H1 & H2).
    apply path_step_raise in H2. destruct H2 as [H2 H3].
    exists l1, path, methods, l2, s. auto.
  - intros (l1 & path & methods & l2 & s & -> & H1 & H2 & H3).
    exists l1, (path, methods), l2, s. split; [reflexivity|].
    split; [exact H1|]. apply path_step_raise. auto.
Qed.

End GeneratorFacts.

(** ** The heap of the converters *)

Lemma heap_get_set_same a d (h : heap) : heap_get a (heap_set a d h) = Some d.
Proof.
  induction h as [|[b d'] r IH]; simpl.
  - now rewrite Nat.eqb_refl.
  - destruct (Nat.eqb a b) eqn:E; simpl.
    + now rewrite Nat.eqb_refl.
    + now rewrite E.
Qed.

Lemma heap_get_set_other a b d (h : heap) :
  a <> b -> heap_get a (heap_set b d h) = heap_get a h.
Proof.
  intros Hne. induction h as [|[c d'] r IH]; simpl.
  - destruct (Nat.eqb a b) eqn:E; [|reflexivity].
    apply Nat.eqb_eq in E. contradiction.
  - destruct (Nat.eqb b c) eqn:E; simpl.
    + apply Nat.eqb_eq in E. subst c.
      destruct (Nat.eqb a b) eqn:E'; [|reflexivity].
      apply Nat.eqb_eq in E'. contradiction.
    + now rewrite IH.
Qed.

Lemma heap_kept_refl (h : heap) : heap_kept h h.
Proof. intros a d H. exact H. Qed.

Lemma heap_kept_trans (h1 h2 h3 : heap) :
  heap_kept h1 h2 -> heap_kept h2 h3 -> heap_kept h1 h3.
Proof. intros H1 H2 a d H. apply H2, H1, H. Qed.

(** A dictionary written at an address that the heap did not hold changes
    no dictionary of the heap. *)
Lemma heap_kept_new a d1 d2 (h : heap) :
  heap_get a h = None -> heap_kept h (heap_set a d2 (heap_set a d1 h)).
Proof.
  intros Ha b d Hb.
  assert (Hne : b <> a) by (intros ->; congruence).
  now rewrite !heap_get_set_other by exact Hne.
Qed.

Lemma heap_get_bound a d (h : heap) :
  heap_get a h = Some d -> a <= fold_right Nat.max 0 (map fst h).
Proof.
  induction h as [|[b d'] r IH]; simpl; [discriminate|].
  destruct (Nat.eqb a b) eqn:E.
  - apply Nat.eqb_eq in E. subst b. intros _. apply Nat.le_max_l.
  - intros H. apply Nat.le_trans with (1 := IH H). apply Nat.le_max_r.
Qed.

Lemma heap_get_fresh (h : heap) : heap_get (fresh_address h) h = None.
Proof.
  destruct (heap_get (fresh_address h) h) as [d|] eqn:E; [|reflexivity].
  apply heap_get_bound in E. unfold fresh_address in E.
  exfalso. exact (Nat.nle_succ_diag_l _ E).
Qed.

Lemma new_dictionary_converter_new {Field : Type} (view : Field -> dict) :
  returns_new_dictionary (new_dictionary_converter view) view.
Proof.
  intros field h. exists (fresh_address h).
  split; [apply heap_get_fresh | reflexivity].
Qed.

(** A loop in place does what the loop does when its body does what the
    body does, and keeps the heap when its body keeps it. *)
Lemma for_each_in_place_new {A S : Type}
    (body_in_place : S -> A -> heap -> result S * heap)
    (body : S -> A -> result S) (l : list A) :
  (forall s x h, exists h',
      body_in_place s x h = (body s x, h') /\ heap_kept h h') ->
  forall s h, exists h',
    for_each_in_place body_in_place l s h = (for_each body l s, h')
    /\ heap_kept h h'.
Proof.
  intros Hbody. induction l as [|x r IH]; intros s h; simpl.
  - exists h. split; [reflexivity | apply heap_kept_refl].
  - destruct (Hbody s x h) as (h1 & E & K1). rewrite E.
    destruct (body s x) as [s'|e]; cbn [bind].
    + destruct (IH s' h1) as (h2 & E2 & K2).
      exists h2. split; [exact E2 | exact (heap_kept_trans K1 K2)].
    + exists h1. split; [reflexivity | exact K1].
Qed.

(** ** [generate] on the heap *)

Section InPlaceFacts.

Context {Schema Field Authenticator Func Tag Server : Type}.
Variable ext : Collaborators Schema Field Authenticator Func Tag Server.
Variable self : SwaggerV3Generator Schema Field Tag Server.
Variable query_string_converter : converter_object Field.
Variable headers_converter : converter_object Field.

(** The two converters build a new dictionary at each call, with the
    content that [self._query_string_converter] and
    [self._headers_converter] give for the field. *)
Hypothesis query_string_converter_new :
  returns_new_dictionary query_string_converter (_query_string_converter self).
Hypothesis headers_converter_new :
  returns_new_dictionary headers_converter (_headers_converter self).

Lemma parameter_in_place_new (converter : converter_object Field)
    (view : Field -> dict) in_ prop field (h : heap) :
  returns_new_dictionary converter view ->
  exists h',
    parameter_in_place ext converter in_ prop field h
    = (parameter_of_field ext view in_ prop field, h')
    /\ heap_kept h h'.
Proof.
  intros Hnew. destruct (Hnew field h) as (a & Ha & E).
  unfold parameter_in_place. rewrite E, heap_get_set_same.
  eexists. split; [reflexivity|]. now apply heap_kept_new.
Qed.

Lemma flatten_in_place_new (converter : converter_object Field)
    (view : Field -> dict) in_ (fields : list (string * Field)) (h : heap) :
  returns_new_dictionary converter view ->
  exists h',
    flatten_in_place ext converter in_ fields h
    = (map (fun pf =>
              JObj (parameter_of_field ext view in_ (fst pf) (snd pf)))
           fields, h')
    /\ heap_kept h h'.
Proof.
  intros Hnew. revert h.
  induction fields as [|[prop field] r IH]; intros h; simpl.
  - exists h. split; [reflexivity | apply heap_kept_refl].
  - destruct (parameter_in_place_new in_ prop field h Hnew) as (h1 & E1 & K1).
    rewrite E1. destruct (IH h1) as (h2 & E2 & K2). rewrite E2.
    exists h2. split; [reflexivity | exact (heap_kept_trans K1 K2)].
Qed.

Lemma parameters_definition_in_place_new
    (d : PathDefinition Schema Authenticator Func) dhs (h : heap) :
  exists h',
    parameters_definition_in_place ext query_string_converter
      headers_converter d dhs h
    = (parameters_definition_of ext self d dhs, h')
    /\ heap_kept h h'.
Proof.
  unfold parameters_definition_in_place, parameters_definition_of,
    _convert_schema_to_list_of_parameters_in_place,
    _convert_schema_to_list_of_parameters.
  assert (Q : exists h1,
             match query_string_schema d with
             | Some schema =>
                 flatten_in_place ext query_string_converter sw.query
                   (get_schema_fields ext schema) h
             | None => ([], h)
             end
             = (match query_string_schema d with
                | Some schema =>
                    map (fun pf =>
                           JObj (parameter_of_field ext
                                   (_query_string_converter self) sw.query
                                   (fst pf) (snd pf)))
                        (get_schema_fields ext schema)
                | None => []
                end, h1)
             /\ heap_kept h h1).
  { destruct (query_string_schema d) as [schema|].
    - apply flatten_in_place_new, query_string_converter_new.
    - exists h. split; [reflexivity | apply heap_kept_refl]. }
  destruct Q as (h1 & -> & K1).
  set (hs := match headers_schema d with
             | USE_DEFAULT => dhs
             | Explicit x => x
             end).
  destruct hs as [schema|].
  - destruct (flatten_in_place_new sw.header (get_schema_fields ext schema) h1
                headers_converter_new) as (h2 & -> & K2).
    exists h2. split; [reflexivity | exact (heap_kept_trans K1 K2)].
  - exists h1. split; [reflexivity | exact K1].
Qed.

Lemma operation_of_with (d : PathDefinition Schema Authenticator Func)
    dhs ds :
  operation_of ext self d dhs ds
  = operation_with ext self d (parameters_definition_of ext self d dhs) ds.
Proof.
  unfold operation_of, operation_with.
  now destruct (parameters_definition_of ext self d dhs).
Qed.

Lemma operation_in_place_new
    (d : PathDefinition Schema Authenticator Func) dhs ds (h : heap) :
  exists h',
    operation_in_place ext self query_string_converter headers_converter
      d dhs ds h
    = (operation_of ext self d dhs ds, h')
    /\ heap_kept h h'.
Proof.
  unfold operation_in_place.
  destruct (parameters_definition_in_place_new d dhs h) as (h1 & -> & K1).
  exists h1. split; [now rewrite operation_of_with | exact K1].
Qed.

Lemma add_methods_in_place_new dhs ds
    (methods : list (string * PathDefinition Schema Authenticator Func))
    (path_definition : dict) (h : heap) :
  exists h',
    add_methods_in_place ext self query_string_converter headers_converter
      dhs ds methods path_definition h
    = (add_methods ext self dhs ds methods path_definition, h')
    /\ heap_kept h h'.
Proof.
  unfold add_methods_in_place, add_methods. revert path_definition h.
  induction methods as [|[m d] r IH]; intros pd h; simpl.
  - exists h. split; [reflexivity | apply heap_kept_refl].
  - destruct (method_skipped self d); [apply IH|].
    destruct (operation_in_place_new d dhs ds h) as (h1 & -> & K1).
    destruct (IH (dict_set (lower m) (JObj (operation_of ext self d dhs ds))
                    pd) h1) as (h2 & E2 & K2).
    exists h2. split; [exact E2 | exact (heap_kept_trans K1 K2)].
Qed.

Lemma path_step_in_place_new dhs ds (path_definitions : list (string * dict))
    item (h : heap) :
  exists h',
    path_step_in_place ext self query_string_converter headers_converter
      dhs ds path_definitions item h
    = (path_step ext self dhs ds path_definitions item, h')
    /\ heap_kept h h'.
Proof.
  unfold path_step_in_place, path_step. destruct item as [path methods].
  destruct (format_path_for_swagger ext path) as [sp args].
  destruct (path_skipped self methods).
  { exists h. split; [reflexivity | apply heap_kept_refl]. }
  destruct (add_path_params ext self args _) as [pd1|e]; cbn [bind].
  - destruct (add_methods_in_place_new dhs ds methods pd1 h) as (h1 & -> & K1).
    exists h1. split; [reflexivity | exact K1].
  - exists h. split; [reflexivity | apply heap_kept_refl].
Qed.

(** With converters that build a new dictionary at each call, [generate]
    on the heap returns what [generate] returns, whatever the heap holds,
    and changes no dictionary of the heap. *)
Lemma generate_in_place_new
    (registry : HandlerRegistry Schema Authenticator Func)
    (host : option string) (sort_keys : bool) (h : heap) :
  exists h',
    generate_in_place ext self query_string_converter headers_converter
      registry host sort_keys h
    = (generate ext self registry host sort_keys, h')
    /\ heap_kept h h'.
Proof.
  unfold generate_in_place, generate, _get_paths_in_place, _get_paths.
  destruct (_get_components ext self registry) as [components|e];
    cbn [bind].
  - destruct (for_each_in_place_new
                (path_step_in_place ext self query_string_converter
                   headers_converter (default_headers_schema registry)
                   (Some (default_security_of ext registry)))
                (path_step ext self (default_headers_schema registry)
                   (Some (default_security_of ext registry)))
                (paths registry)
                (path_step_in_place_new (default_headers_schema registry)
                   (Some (default_security_of ext registry)))
                [] h) as (h1 & -> & K1).
    destruct (for_each _ (paths registry) []) as [pds|e]; cbn [bind];
      exists h1; (split; [reflexivity | exact K1]).
  - exists h. split; [reflexivity | apply heap_kept_refl].
Qed.

(** C2 (amended): with converters of the query string and of the headers
    that build a new dictionary at each call, a call of [generate] with
    [sort_keys] that returns a document changes no dictionary that was
    there before it, a second call on the same registry, made after it,
    returns the same document, and the keys of every object of the
    document are in lexicographic order, at every nesting level. *)
Theorem C2_generate_deterministic_and_sorted
    (registry : HandlerRegistry Schema Authenticator Func)
    (host : option string) (doc : json) (h h1 : heap) :
  generate_in_place ext self query_string_converter headers_converter
    registry host true h = (Ok doc, h1) ->
  heap_kept h h1
  /\ (exists h2,
        generate_in_place ext self query_string_converter headers_converter
          registry host true h1 = (Ok doc, h2)
        /\ heap_kept h1 h2)
  /\ sorted_at_every_level doc = true.
Proof.
  intros Hrun.
  destruct (generate_in_place_new registry host true h) as (h' & E & K).
  rewrite E in Hrun. injection Hrun as Hdoc <-.
  split; [exact K|]. split.
  - destruct (generate_in_place_new registry host true h') as (h2 & E2 & K2).
    exists h2. split; [now rewrite E2, Hdoc | exact K2].
  - exact (generate_sorted ext self registry host Hdoc).
Qed.

End InPlaceFacts.

(** * Examples *)

(** The instance of the verification for the examples is what the
    contract says. *)
Lemma same_type_eq s t : same_type s t = true -> s = t.
Proof.
  destruct s, t; simpl; try discriminate; auto.
  intros H. apply String.eqb_eq in H. now subst.
Qed.

Lemma spec_verify_contract :
  verify_contract spec_verify_parameters_are_the_same.
Proof.
  unfold verify_contract. split; [|split].
  - intros stored ps p H Hin. unfold spec_verify_parameters_are_the_same in H.
    match type of H with
    | (if ?c then _ else _) = _ => destruct c eqn:C; [|discriminate]
    end.
    apply andb_prop in C. destruct C as [C _].
    rewrite forallb_forall in C. specialize (C p Hin).
    apply existsb_exists in C. destruct C as (q & Q1 & Q2).
    unfold same_declaration in Q2. apply andb_prop in Q2.
    destruct Q2 as [Q2 Q3]. apply same_type_eq in Q2, Q3.
    exists q. auto.
  - intros d ps _. discriminate.
  - intros stored ps e _ H. unfold spec_verify_parameters_are_the_same in H.
    match type of H with
    | (if ?c then _ else _) = _ => destruct c; [discriminate|]
    end.
    now injection H as <-.
Qed.

(** C1, as stated, fails: the two templates format to the same spec path
    and declare the types integer and string for [id], the first one is
    visible in the output, the second one is hidden and hidden endpoints
    are excluded; [generate] returns a document. *)
Lemma C1_counterexample_hidden_variant :
  fst (spec_format_path_for_swagger "/widgets/<int:id>") = "/widgets/{id}"
  /\ fst (spec_format_path_for_swagger "/widgets/<string:id>")
     = "/widgets/{id}"
  /\ snd (spec_format_path_for_swagger "/widgets/<int:id>")
     = [ {| name := "id"; type := "int" |} ]
  /\ snd (spec_format_path_for_swagger "/widgets/<string:id>")
     = [ {| name := "id"; type := "string" |} ]
  /\ dict_get "int"
       (flask_converters_to_swagger_types (example_generator false))
     = Some "integer"
  /\ dict_get "string"
       (flask_converters_to_swagger_types (example_generator false))
     = Some "string"
  /\ path_skipped (example_generator false) (snd widgets_by_int) = false
  /\ (exists doc,
        generate example_collaborators (example_generator false)
          (conflicting_registry true) None true = Ok doc)
  /\ generate example_collaborators (example_generator false)
       (conflicting_registry true) None true
     <> Raise ParameterMismatch.
Proof.
  repeat split; try reflexivity.
  - eexists. vm_compute. reflexivity.
  - vm_compute. discriminate.
Qed.

Lemma C3_default_response_entry_witness :
  exists (op : dict) path methods method d,
    In (path, methods) (paths (example_registry [ widgets_by_int ]))
    /\ In (method, d) methods
    /\ op = operation_of example_collaborators (example_generator false) d
              None (Some [ JObj [ ("apiKey", JList []) ] ])
    /\ dict_get sw.default
         (responses_definition_of example_collaborators
            (example_generator false) d)
       = Some (JObj (_get_response_definition example_collaborators "Error")).
Proof.
  destruct (@C3_default_response_entry _ _ _ _ _ _
              example_collaborators (example_generator false)
              (example_registry [ widgets_by_int ])
              [ ("/widgets/{id}",
                 [ ("parameters",
                    JList [ JObj [ ("name", JStr "id");
                                   ("required", JBool true);
                                   ("in", JStr "path");
                                   ("style", JStr "simple");
                                   ("schema",
                                    JObj [ ("type", JStr "integer") ]) ] ]);
                   ("get",
                    JObj (operation_of example_collaborators
                            (example_generator false)
                            (example_endpoint false []) None
                            (Some [ JObj [ ("apiKey", JList []) ] ]))) ]) ]
              "/widgets/{id}"
              [ ("parameters",
                 JList [ JObj [ ("name", JStr "id");
                                ("required", JBool true);
                                ("in", JStr "path");
                                ("style", JStr "simple");
                                ("schema",
                                 JObj [ ("type", JStr "integer") ]) ] ]);
                ("get",
                 JObj (operation_of example_collaborators
                         (example_generator false)
                         (example_endpoint false []) None
                         (Some [ JObj [ ("apiKey", JList []) ] ]))) ]
              "get"
              (operation_of example_collaborators (example_generator false)
                 (example_endpoint false []) None
                 (Some [ JObj [ ("apiKey", JList []) ] ])))
    as (path & methods & method & d & H1 & H2 & H3 & _ & H5 & _).
  - vm_compute. reflexivity.
  - simpl. now left.
  - simpl. right. now left.
  - eexists _, path, methods, method, d. repeat split; eauto.
Defined.

Lemma C4_explicit_no_body_response_witness :
  dict_get "204"
    (responses_definition_of example_collaborators (example_generator false)
       (example_endpoint false []))
  = Some (JObj [ ("description", JStr "No response body.") ])
  /\ dict_get "404"
       (responses_definition_of example_collaborators
          (example_generator false) (example_endpoint false []))
     = None.
Proof.
  assert (Hnd : NoDup (map fst (response_body_schema
                                  (example_endpoint false [])))).
  { simpl. repeat constructor; simpl; intuition discriminate. }
  split.
  - destruct (@C4_explicit_no_body_response _ _ _ _ _ _
                example_collaborators (example_generator false)
                (example_endpoint false []) None None 204%Z Hnd)
      as (_ & H & _).
    apply H. simpl. right. now left.
  - destruct (@C4_explicit_no_body_response _ _ _ _ _ _
                example_collaborators (example_generator false)
                (example_endpoint false []) None None 404%Z Hnd)
      as (_ & _ & _ & H).
    apply H. simpl. intuition discriminate.
Defined.

Lemma C6_hidden_endpoint_witness :
  _get_paths example_collaborators (example_generator false)
    [ ("/widgets/<int:id>",
       [ ("GET", example_endpoint false []);
         ("POST", example_endpoint true []) ]) ] None None
  = _get_paths example_collaborators (example_generator false)
      [ ("/widgets/<int:id>", [ ("GET", example_endpoint false []) ]) ]
      None None
  /\ _get_paths example_collaborators (example_generator true)
       [ ("/widgets/<int:id>",
          [ ("GET", example_endpoint false []);
            ("POST", example_endpoint true []) ]) ] None None
     = _get_paths example_collaborators (example_generator true)
         [ ("/widgets/<int:id>",
            [ ("GET", example_endpoint false []);
              ("POST", with_hidden false (example_endpoint true [])) ]) ]
         None None.
Proof.
  split.
  - destruct (@C6_hidden_endpoint _ _ _ _ _ _
                example_collaborators (example_generator false)
                (example_registry
                   [ ("/widgets/<int:id>",
                      [ ("GET", example_endpoint false []);
                        ("POST", example_endpoint true []) ]) ])
                [] "/widgets/<int:id>" [ ("GET", example_endpoint false []) ]
                "POST" (example_endpoint true []) [] [] None None
                eq_refl eq_refl) as [H _].
    exact (H eq_refl).
  - destruct (@C6_hidden_endpoint _ _ _ _ _ _
                example_collaborators (example_generator true)
                (example_registry
                   [ ("/widgets/<int:id>",
                      [ ("GET", example_endpoint false []);
                        ("POST", example_endpoint true []) ]) ])
                [] "/widgets/<int:id>" [ ("GET", example_endpoint false []) ]
                "POST" (example_endpoint true []) [] [] None None
                eq_refl eq_refl) as [_ H].
    destruct (H eq_refl) as [H1 _]. exact H1.
Defined.

Lemma C10_fully_hidden_path_is_skipped_witness :
  _get_paths example_collaborators (example_generator false)
    [ widgets_by_int; widgets_by_unknown; widgets_by_string true ] None None
  = _get_paths example_collaborators (example_generator false)
      [ widgets_by_int; widgets_by_string true ] None None.
Proof.
  destruct (@C10_fully_hidden_path_is_skipped _ _ _ _ _ _
              example_collaborators (example_generator false)
              (example_registry
                 [ widgets_by_int; widgets_by_unknown;
                   widgets_by_string true ])
              [ widgets_by_int ] "/widgets/<hex:id>"
              (snd widgets_by_unknown) [ widgets_by_string true ]
              eq_refl eq_refl eq_refl) as [H _].
  exact (H None None).
Defined.

(** The keys of the paths of a registry whose second template is skipped. *)
Lemma get_paths_keys_witness :
  exists path_definitions,
    _get_paths example_collaborators (example_generator false)
      [ widgets_by_int; widgets_by_unknown ] None None
    = Ok path_definitions
    /\ NoDup (map fst path_definitions)
    /\ In "/widgets/{id}" (map fst path_definitions).
Proof.
  eexists. split; [vm_compute; reflexivity|].
  match goal with
  | |- NoDup (map fst ?pds) /\ _ =>
      destruct (@get_paths_keys _ _ _ _ _ _ example_collaborators
                  (example_generator false)
                  [ widgets_by_int; widgets_by_unknown ] None None pds)
        as [H1 H2]
  end.
  - vm_compute. reflexivity.
  - split; [exact H1|]. apply H2.
    exists "/widgets/<int:id>", (snd widgets_by_int).
    split; [now left | split; reflexivity].
Defined.

(** Three endpoints of one path, two of them at the methods [GET] and
    [get]: the path item has the keys [parameters], [get] and [post]. *)
Lemma get_paths_items_nodup_witness :
  exists path_definitions pd,
    _get_paths example_collaborators (example_generator false)
      [ ("/widgets/<int:id>",
         [ ("GET", example_endpoint false []);
           ("POST", example_endpoint false []);
           ("get", example_endpoint false [ USE_DEFAULT ]) ]) ] None None
    = Ok path_definitions
    /\ dict_get "/widgets/{id}" path_definitions = Some pd
    /\ map fst pd = [ "parameters"; "get"; "post" ]
    /\ NoDup (map fst pd).
Proof.
  do 2 eexists. split; [vm_compute; reflexivity|].
  split; [vm_compute; reflexivity|]. split; [reflexivity|].
  eapply (@get_paths_items_nodup _ _ _ _ _ _ example_collaborators
            (example_generator false)
            [ ("/widgets/<int:id>",
               [ ("GET", example_endpoint false []);
                 ("POST", example_endpoint false []);
                 ("get", example_endpoint false [ USE_DEFAULT ]) ]) ]
            None None _ "/widgets/{id}").
  - vm_compute. reflexivity.
  - vm_compute. left. reflexivity.
Defined.

Lemma operation_id_fallback_witness :
  dict_get "operationId"
    (operation_of example_collaborators (example_generator false)
       (example_endpoint false []) None None)
  = Some (JStr "get_widget").
Proof.
  apply (@operation_id_fallback _ _ _ _ _ _ example_collaborators
           (example_generator false) (example_endpoint false []) None None).
  left. reflexivity.
Defined.

Lemma operation_ignores_unused_defaults_witness :
  operation_of example_collaborators (example_generator false)
    (example_endpoint false [ Explicit "basic" ]) None
    (Some [ JObj [ ("apiKey", JList []) ] ])
  = operation_of example_collaborators (example_generator false)
      (example_endpoint false [ Explicit "basic" ]) None None.
Proof.
  apply (@operation_ignores_unused_defaults _ _ _ _ _ _
           example_collaborators (example_generator false)
           (example_endpoint false [ Explicit "basic" ]) None None
           (Some [ JObj [ ("apiKey", JList []) ] ]) None).
  intros a [<-|[]]. discriminate.
Defined.

Lemma get_paths_entry_shape_witness :
  ("get" = sw.parameters /\ exists path_params : list json,
      JObj (operation_of example_collaborators (example_generator false)
              (example_endpoint false []) None None) = JList path_params)
  \/ (lower "get" = "get" /\ exists op,
        JObj (operation_of example_collaborators (example_generator false)
                (example_endpoint false []) None None) = JObj op).
Proof.
  apply (@get_paths_entry_shape _ _ _ _ _ _ example_collaborators
           (example_generator false) [ widgets_by_int ] None None
           [ ("/widgets/{id}",
              [ ("parameters",
                 JList [ JObj [ ("name", JStr "id");
                                ("required", JBool true);
                                ("in", JStr "path");
                                ("style", JStr "simple");
                                ("schema",
                                 JObj [ ("type", JStr "integer") ]) ] ]);
                ("get",
                 JObj (operation_of example_collaborators
                         (example_generator false)
                         (example_endpoint false []) None None)) ]) ]
           "/widgets/{id}"
           [ ("parameters",
              JList [ JObj [ ("name", JStr "id");
                             ("required", JBool true);
                             ("in", JStr "path");
                             ("style", JStr "simple");
                             ("schema",
                              JObj [ ("type", JStr "integer") ]) ] ]);
             ("get",
              JObj (operation_of example_collaborators
                      (example_generator false)
                      (example_endpoint false []) None None)) ]).
  - vm_compute. reflexivity.
  - now left.
  - right. now left.
Defined.

(** Of two endpoints at the methods [GET] and [get] of one path, the
    second one is in the output. *)
Lemma get_paths_last_writer_witness :
  exists path_definitions,
    _get_paths example_collaborators (example_generator false)
      [ ("/widgets/<int:id>",
         [ ("GET", example_endpoint false []);
           ("get", example_endpoint false [ USE_DEFAULT ]) ]) ] None None
    = Ok path_definitions
    /\ exists pd,
         dict_get "/widgets/{id}" path_definitions = Some pd
         /\ dict_get "get" pd
            = Some (JObj (operation_of example_collaborators
                            (example_generator false)
                            (example_endpoint false [ USE_DEFAULT ])
                            None None)).
Proof.
  eexists. split; [vm_compute; reflexivity|].
  match goal with
  | |- exists pd, dict_get _ ?pds = _ /\ _ =>
      destruct (@get_paths_last_writer _ _ _ _ _ _ example_collaborators
                  (example_generator false)
                  [ ("/widgets/<int:id>",
                     [ ("GET", example_endpoint false []);
                       ("get", example_endpoint false [ USE_DEFAULT ]) ]) ]
                  None None pds
                  [] "/widgets/<int:id>"
                  [ ("GET", example_endpoint false []) ]
                  "get" (example_endpoint false [ USE_DEFAULT ]) [] [])
        as (pd & H1 & H2)
  end.
  - vm_compute. reflexivity.
  - reflexivity.
  - reflexivity.
  - intros method' d' [].
  - intros path' methods' [].
  - exists pd. split; [exact H1 | exact H2].
Defined.

(** Two visible templates of different spec paths, with known tags. *)
Lemma get_paths_returns_witness :
  exists path_definitions,
    _get_paths example_collaborators (example_generator false)
      [ widgets_by_int;
        ("/gadgets/<uuid:key>", [ ("GET", example_endpoint false []) ]) ]
      None None
    = Ok path_definitions.
Proof.
  apply (@get_paths_returns _ _ _ _ _ _ example_collaborators
           (example_generator false)
           [ widgets_by_int;
             ("/gadgets/<uuid:key>", [ ("GET", example_endpoint false []) ]) ]
           None None).
  - intros path methods path_arg [[= <- <-]|[[= <- <-]|[]]] _ [<-|[]];
      vm_compute; discriminate.
  - intros l1 path methods l2 path' methods' E _ _ Hin.
    destruct l1 as [|a [|b l1]].
    + destruct Hin.
    + injection E as <- <- <- <-. destruct Hin as [[= <- <-]|[]].
      right. vm_compute. discriminate.
    + exfalso. injection E as _ _ E. destruct l1; discriminate E.
Defined.

(** Two authenticators of one scheme name: the scheme is there once. *)
Lemma security_schemes_last_wins_witness :
  exists security_schemes,
    dict_get "securitySchemes"
      [ ("securitySchemes",
         JObj [ ("apiKey", JObj [ ("type", JStr "apiKey") ]) ]) ]
    = Some (JObj security_schemes)
    /\ dict_get "apiKey" security_schemes
       = Some (JObj [ ("type", JStr "apiKey") ]).
Proof.
  apply (@security_schemes_last_wins _ _ _ _ _ _ example_collaborators
           (example_generator false)
           {| paths := [];
              default_headers_schema := None;
              default_authenticators := [ "apiKey"; "apiKey" ] |}
           [ ("securitySchemes",
              JObj [ ("apiKey", JObj [ ("type", JStr "apiKey") ]) ]) ]
           [ "apiKey" ] "apiKey" [] "apiKey"
           (JObj [ ("type", JStr "apiKey") ])).
  - vm_compute. reflexivity.
  - reflexivity.
  - simpl. repeat constructor. intros [].
  - reflexivity.
  - intros b [].
Defined.

(** A generator with a tag and a server, called with a host. *)
Lemma generate_top_level_witness :
  exists swagger,
    generate example_collaborators tagged_generator
      (example_registry [ widgets_by_int ]) (Some "https://api.example.org")
      false
    = Ok (JObj swagger)
    /\ map fst swagger
       = [ "openapi"; "info"; "paths"; "components"; "security"; "tags";
           "servers" ].
Proof.
  eexists. split; [vm_compute; reflexivity|].
  match goal with
  | |- map fst ?s = _ =>
      destruct (@generate_top_level _ _ _ _ _ _ example_collaborators
                  tagged_generator (example_registry [ widgets_by_int ])
                  (Some "https://api.example.org") (JObj s))
        as (swagger & components & pds & E & _ & _ & K & _)
  end.
  - vm_compute. reflexivity.
  - injection E as <-. etransitivity; [exact K|]. vm_compute. reflexivity.
Defined.

Lemma generate_optional_keys_witness :
  exists swagger,
    generate example_collaborators tagged_generator
      (example_registry [ widgets_by_int ]) (Some "https://api.example.org")
      false
    = Ok (JObj swagger)
    /\ dict_get "tags" swagger
       = Some (JList [ JObj [ ("name", JStr "widgets") ] ])
    /\ dict_get "servers" swagger
       = Some (JList [ JObj [ ("url", JStr "https://eu.example.org") ];
                       JObj [ ("url", JStr "https://api.example.org") ] ]).
Proof.
  eexists. split; [vm_compute; reflexivity|].
  match goal with
  | |- dict_get _ ?s = _ /\ _ =>
      destruct (@generate_optional_keys _ _ _ _ _ _ example_collaborators
                  tagged_generator (example_registry [ widgets_by_int ])
                  (Some "https://api.example.org") (JObj s))
        as (swagger & E & _ & K1 & K2)
  end.
  - vm_compute. reflexivity.
  - injection E as <-. split; [exact K1 | exact K2].
Defined.

Lemma get_paths_parameters_witness :
  exists path_definitions,
    _get_paths example_collaborators (example_generator false)
      [ widgets_by_int ] None None
    = Ok path_definitions
    /\ exists pd path_params,
         dict_get "/widgets/{id}" path_definitions = Some pd
         /\ path_params_of (example_generator false)
              [ {| name := "id"; type := "int" |} ] = Ok path_params
         /\ dict_get "parameters" pd = Some (JList path_params).
Proof.
  eexists. split; [vm_compute; reflexivity|].
  match goal with
  | |- exists pd path_params, dict_get _ ?pds = _ /\ _ =>
      apply (@get_paths_parameters _ _ _ _ _ _ example_collaborators
               (example_generator false) [ widgets_by_int ] None None pds
               [] "/widgets/<int:id>" (snd widgets_by_int) [])
  end.
  - vm_compute. reflexivity.
  - reflexivity.
  - reflexivity.
  - vm_compute. discriminate.
  - intros method d [[= <- <-]|[]]. right. vm_compute. discriminate.
  - intros path' methods' [].
Defined.

(** The two visible templates of [/widgets/{id}], with the types integer
    and string for [id]. *)
Lemma C1_conflicting_parameter_types_witness :
  generate example_collaborators (example_generator false)
    (conflicting_registry false) None true
  = Raise ParameterMismatch.
Proof.
  destruct (@C1_conflicting_parameter_types _ _ _ _ _ _
              example_collaborators (example_generator false)
              (conflicting_registry false)
              [] "/widgets/<int:id>" (snd widgets_by_int)
              [] "/widgets/<string:id>" (snd (widgets_by_string false))
              [] {| name := "id"; type := "int" |}
              {| name := "id"; type := "string" |}
              "integer" "string" None true) as [_ H].
  - exact spec_verify_contract.
  - reflexivity.
  - reflexivity.
  - reflexivity.
  - reflexivity.
  - vm_compute. now left.
  - vm_compute. now left.
  - reflexivity.
  - reflexivity.
  - reflexivity.
  - discriminate.
  - vm_compute. repeat constructor. intros [].
  - apply H.
    + eexists. vm_compute. reflexivity.
    + intros path methods path_arg [[= <- <-]|[[= <- <-]|[]]] _ [<-|[]];
        vm_compute; discriminate.
    + intros path methods method d [[= <- <-]|[[= <- <-]|[]]]
             [[= <- <-]|[]]; vm_compute; discriminate.
Defined.


(** The two visible templates of one spec path with the types integer and
    string: the second one is the path at which [_get_paths] raises, at
    the verification against the list that the first one stored. *)
Lemma get_paths_raises_witness :
  exists l1 path methods l2,
    [ widgets_by_int; widgets_by_string false ] = l1 ++ (path, methods) :: l2
    /\ path_skipped (example_generator false) methods = false.
Proof.
  destruct (proj1 (@get_paths_raises _ _ _ _ _ _ example_collaborators
                     (example_generator false)
                     [ widgets_by_int; widgets_by_string false ] None None
                     ParameterMismatch))
    as (l1 & path & methods & l2 & s & H1 & _ & H2 & _).
  - vm_compute. reflexivity.
  - now exists l1, path, methods, l2.
Defined.

(** C2, as stated, fails: the converter of the query string keeps one
    dictionary, with the hint [explode], and hands it out at every call.
    The first call of [generate] pops the hint from it, so the dictionary
    has changed after the call, and the document of the second call, which
    finds the dictionary without the hint, is another one. *)
Lemma C2_counterexample_shared_dictionary :
  exists doc1 h1 doc2 h2,
    generate_in_place example_collaborators (example_generator false)
      shared_converter shared_converter
      (example_registry [ ("/widgets", [ ("GET", example_endpoint false []) ]) ])
      None true shared_heap
    = (Ok doc1, h1)
    /\ generate_in_place example_collaborators (example_generator false)
         shared_converter shared_converter
         (example_registry
            [ ("/widgets", [ ("GET", example_endpoint false []) ]) ])
         None true h1
       = (Ok doc2, h2)
    /\ doc1 <> doc2
    /\ heap_get 0 shared_heap
       = Some [ ("type", JStr "array"); ("explode", JBool true) ]
    /\ heap_get 0 h1 = Some [ ("type", JStr "array") ].
Proof.
  do 4 eexists. split; [vm_compute; reflexivity|].
  split; [vm_compute; reflexivity|].
  split; [intros E; discriminate E|]. split; reflexivity.
Qed.

(** Converters that build a new dictionary at each call, on a heap that
    holds a dictionary already. *)
Lemma C2_generate_deterministic_and_sorted_witness :
  exists doc h1,
    generate_in_place example_collaborators (example_generator false)
      (new_dictionary_converter (fun field : bool * dict => snd field))
      (new_dictionary_converter (fun field : bool * dict => snd field))
      (conflicting_registry true) (Some "https://api.example.org") true
      shared_heap
    = (Ok doc, h1)
    /\ heap_get 0 h1 = heap_get 0 shared_heap
    /\ (exists h2,
          generate_in_place example_collaborators (example_generator false)
            (new_dictionary_converter (fun field : bool * dict => snd field))
            (new_dictionary_converter (fun field : bool * dict => snd field))
            (conflicting_registry true) (Some "https://api.example.org") true
            h1
          = (Ok doc, h2))
    /\ sorted_at_every_level doc = true.
Proof.
  do 2 eexists. split; [vm_compute; reflexivity|].
  match goal with
  | |- heap_get 0 ?h1 = _ /\ (exists h2, _ = (Ok ?doc, _)) /\ _ =>
      destruct (@C2_generate_deterministic_and_sorted _ _ _ _ _ _
                  example_collaborators (example_generator false)
                  (new_dictionary_converter
                     (fun field : bool * dict => snd field))
                  (new_dictionary_converter
                     (fun field : bool * dict => snd field))
                  (new_dictionary_converter_new _)
                  (new_dictionary_converter_new _)
                  (conflicting_registry true)
                  (Some "https://api.example.org") doc shared_heap h1)
        as (K & (h2 & E2 & _) & S)
  end.
  - vm_compute. reflexivity.
  - split; [reflexivity|]. split; [|exact S]. exists h2. exact E2.
Defined.
